(** * gastown-viewer-intent: dependency graph, DOT export, SSE broker

    A shallow embedding of the Go sources
      - [internal/model] graph file  (EdgeType, Graph, AddNode, AddEdge, ToDOT),
      - [internal/beads/adapter.go]  (CLIAdapter.Graph, mapDepTypeToEdgeType),
      - [internal/api/handlers.go]   (handleGraph, writeJSON, writeError),
      - [internal/api] SSE file      (SSEBroker, its event loop, handleEvents),
      - [web/src/components/DependencyGraph.tsx] (edge selection and links),
    followed by the properties established about them.

    Go strings are byte strings and are modelled by [string]; Go maps are
    modelled by stdpp's [gmap]; Go's [int] is a 64-bit two's complement
    integer, modelled by [Z] with the wrap-around written out. *)

From Stdlib Require Import ZArith Ascii String List Lia.
From stdpp Require Import gmap strings list fin_maps.

Open Scope string_scope.

(** ** Byte-string helpers shared by all packages *)

(** The double quote and the newline byte, built from their codes. *)
Definition dquote : ascii := "034"%char.
Definition newline : ascii := "010"%char.
Definition backslash : ascii := "\"%char.
Definition dq : string := String dquote EmptyString.
Definition nl : string := String newline EmptyString.

(** Go's [int] on 64-bit targets. *)
Definition MaxInt : Z := 2 ^ 63 - 1.
Definition MinInt : Z := - 2 ^ 63.
Definition int_wrap (z : Z) : Z := ((z + 2 ^ 63) mod 2 ^ 64 - 2 ^ 63)%Z.

(** [x++] on an [int]. *)
Definition int_incr (z : Z) : Z := int_wrap (z + 1).

(** [len(s)] of a slice, as an [int]. *)
Definition len {A : Type} (l : list A) : Z := Z.of_nat (length l).

(** [strings.ReplaceAll(s, old, new)] for a one-byte [old]: every
    occurrence of the byte is replaced, left to right. *)
Fixpoint ReplaceAll (s : string) (old : ascii) (new : string) : string :=
  match s with
  | EmptyString => EmptyString
  | String c rest =>
      if Ascii.eqb c old then new +:+ ReplaceAll rest old new
      else String c (ReplaceAll rest old new)
  end.

(** The value that [encoding/json] writes for a Go value, as a tree: an
    object lists its members in the order of the struct's fields, under the
    names of their [json] tags. *)
Unset Elimination Schemes.
Inductive json : Type :=
| JString (s : string)
| JNumber (n : Z)
| JArray (items : list json)
| JObject (members : list (string * json)).
Set Elimination Schemes.

(** ** Package model: the graph *)

Module Model.

(** [type EdgeType string] and its constants. *)
Definition EdgeType : Type := string.

Definition EdgeTypeBlocks : EdgeType := "blocks".
Definition EdgeTypeBlockedBy : EdgeType := "blocked_by".
Definition EdgeTypeParent : EdgeType := "parent".
Definition EdgeTypeChild : EdgeType := "child".
Definition EdgeTypeWaitsFor : EdgeType := "waits_for".
Definition EdgeTypeWaitedBy : EdgeType := "waited_by".
Definition EdgeTypeConditional : EdgeType := "conditional_blocks".
Definition EdgeTypeRelates : EdgeType := "relates_to".
Definition EdgeTypeDuplicates : EdgeType := "duplicates".
Definition EdgeTypeMentions : EdgeType := "mentions".
Definition EdgeTypeDerivedFrom : EdgeType := "derived_from".
Definition EdgeTypeSupersedes : EdgeType := "supersedes".
Definition EdgeTypeImplements : EdgeType := "implements".
Definition EdgeTypeUnknown : EdgeType := "unknown".

(** Modelled from the spec: the [Status] string type and its four constants
    are declared in another file of package model, which this development
    does not cover; the spec fixes the values pending, in_progress, done and
    blocked (the web client's [statusColors] table has the same four keys). *)
Definition Status : Type := string.
Definition StatusPending : Status := "pending".
Definition StatusInProgress : Status := "in_progress".
Definition StatusDone : Status := "done".
Definition StatusBlocked : Status := "blocked".

(** [GraphEdge]. *)
Record GraphEdge : Type := mkEdge {
  From : string;
  To : string;
  Type_ : EdgeType
}.

#[export] Instance GraphEdge_eq_dec : EqDecision GraphEdge.
Proof. solve_decision. Defined.

(** [GraphStats]. *)
Record GraphStats : Type := mkStats {
  NodeCount : Z;
  EdgeCount : Z;
  MaxDepth : Z
}.

Section WithPriority.

(** The [Priority] type is declared in another file of the package; the
    graph only stores it, so it is a parameter. *)
Context {Priority : Type}.

(** [GraphNode]. *)
Record GraphNode : Type := mkNode {
  ID : string;
  Title : string;
  Status_ : Status;
  Priority_ : Priority
}.

(** [Graph]. *)
Record Graph : Type := mkGraph {
  Nodes : list GraphNode;
  Edges : list GraphEdge;
  Stats : GraphStats
}.

(** [NewGraph]: the zero value of [Stats] and two empty slices. *)
Definition NewGraph : Graph :=
  {| Nodes := []; Edges := [];
     Stats := {| NodeCount := 0; EdgeCount := 0; MaxDepth := 0 |} |}.

(** Method [AddNode] of [Graph]. *)
Definition AddNode (g : Graph) (node : GraphNode) : Graph :=
  {| Nodes := Nodes g ++ [node];
     Edges := Edges g;
     Stats := {| NodeCount := int_incr (NodeCount (Stats g));
                 EdgeCount := EdgeCount (Stats g);
                 MaxDepth := MaxDepth (Stats g) |} |}.

(** Method [AddEdge] of [Graph]. *)
Definition AddEdge (g : Graph) (edge : GraphEdge) : Graph :=
  {| Nodes := Nodes g;
     Edges := Edges g ++ [edge];
     Stats := {| NodeCount := NodeCount (Stats g);
                 EdgeCount := int_incr (EdgeCount (Stats g));
                 MaxDepth := MaxDepth (Stats g) |} |}.

(** A call of one of the two insertion methods. *)
Inductive insertion : Type :=
| CallAddNode (node : GraphNode)
| CallAddEdge (edge : GraphEdge).

Definition call (g : Graph) (c : insertion) : Graph :=
  match c with
  | CallAddNode node => AddNode g node
  | CallAddEdge edge => AddEdge g edge
  end.

(** A sequence of calls, in program order. *)
Definition calls (g : Graph) (cs : list insertion) : Graph :=
  fold_left call cs g.

(** *** ToDOT *)

(** The [statusColors] map literal of [ToDOT]. *)
Definition statusColors : gmap Status string :=
  <[StatusBlocked := "#ef4444"]>
  (<[StatusDone := "#22c55e"]>
  (<[StatusInProgress := "#eab308"]>
  (<[StatusPending := "#3b82f6"]> ∅))).

(** The [edgeStyles] map literal of [ToDOT]. *)
Definition edgeStyles : gmap EdgeType string :=
  <[EdgeTypeImplements := "color=" +:+ dq +:+ "#22c55e" +:+ dq +:+ ", style=bold"]>
  (<[EdgeTypeRelates := "color=" +:+ dq +:+ "#3b82f6" +:+ dq +:+ ", style=dotted"]>
  (<[EdgeTypeConditional := "color=" +:+ dq +:+ "#a855f7" +:+ dq +:+ ", style=dashed"]>
  (<[EdgeTypeWaitsFor := "color=" +:+ dq +:+ "#f97316" +:+ dq +:+ ", style=dashed"]>
  (<[EdgeTypeChild := "color=" +:+ dq +:+ "#6b7280" +:+ dq +:+ ", style=dotted"]>
  (<[EdgeTypeParent := "color=" +:+ dq +:+ "#6b7280" +:+ dq +:+ ", style=dashed"]>
  (<[EdgeTypeBlockedBy := "color=" +:+ dq +:+ "#ef4444" +:+ dq +:+ ", style=dashed"]>
  (<[EdgeTypeBlocks := "color=" +:+ dq +:+ "#ef4444" +:+ dq +:+ ", penwidth=2"]> ∅))))))).

(** Indexing a Go [map[K]string]: the empty string when the key is absent. *)
Definition index_string (m : gmap string string) (k : string) : string :=
  default EmptyString (m !! k).

(** The label of a node: the title with every double quote turned into
    backslash, double quote. *)
Definition label_of (title : string) : string :=
  ReplaceAll title dquote (String backslash dq).

(** What follows [label=] and its opening quote on a node's line. *)
Definition after_label_open (label color : string) : string :=
  label +:+ dq +:+ ", fillcolor=" +:+ dq +:+ color +:+ dq +:+
  ", style=" +:+ dq +:+ "filled,rounded" +:+ dq +:+ "];" +:+ nl.

(** The body of the loop over [g.Nodes]: one [Sprintf]. *)
Definition node_line (node : GraphNode) : string :=
  let color := index_string statusColors (Status_ node) in
  let color := if String.eqb color EmptyString then "#6b7280" else color in
  let label := label_of (Title node) in
  "  " +:+ dq +:+ ID node +:+ dq +:+ " [label=" +:+ dq +:+
  after_label_open label color.

(** The body of the loop over [g.Edges]: one [Sprintf]. *)
Definition edge_line (edge : GraphEdge) : string :=
  let style := index_string edgeStyles (Type_ edge) in
  let style :=
    if String.eqb style EmptyString then "color=" +:+ dq +:+ "#9ca3af" +:+ dq
    else style in
  "  " +:+ dq +:+ From edge +:+ dq +:+ " -> " +:+ dq +:+ To edge +:+ dq +:+
  " [" +:+ style +:+ ", label=" +:+ dq +:+ Type_ edge +:+ dq +:+ "];" +:+ nl.

(** Method [ToDOT] of [Graph]: [strings.Builder] concatenates the
    successive [WriteString]s. *)
Definition ToDOT (g : Graph) : string :=
  let b := "digraph dependencies {" +:+ nl in
  let b := b +:+ "  rankdir=LR;" +:+ nl in
  let b := b +:+ "  node [shape=box, style=rounded];" +:+ nl +:+ nl in
  let b := fold_left (fun b node => b +:+ node_line node) (Nodes g) b in
  let b := b +:+ nl in
  let b := fold_left (fun b edge => b +:+ edge_line edge) (Edges g) b in
  b +:+ "}" +:+ nl.

(** *** JSON encoding, following the struct tags *)

(** How a [Priority] is encoded is decided where the type is declared. *)
Variable Priority_json : Priority -> json.

Definition GraphNode_json (node : GraphNode) : json :=
  JObject [("id", JString (ID node));
           ("title", JString (Title node));
           ("status", JString (Status_ node));
           ("priority", Priority_json (Priority_ node))].

Definition GraphEdge_json (edge : GraphEdge) : json :=
  JObject [("from", JString (From edge));
           ("to", JString (To edge));
           ("type", JString (Type_ edge))].

Definition GraphStats_json (st : GraphStats) : json :=
  JObject [("node_count", JNumber (NodeCount st));
           ("edge_count", JNumber (EdgeCount st));
           ("max_depth", JNumber (MaxDepth st))].

Definition Graph_json (g : Graph) : json :=
  JObject [("nodes", JArray (map GraphNode_json (Nodes g)));
           ("edges", JArray (map GraphEdge_json (Edges g)));
           ("stats", GraphStats_json (Stats g))].

End WithPriority.

Arguments GraphNode : clear implicits.
Arguments Graph : clear implicits.
Arguments insertion : clear implicits.

(** *** The DOT side: how Graphviz reads a quoted string *)

(** The lexical rule of the DOT language for a double-quoted string, read
    from just after the opening quote: backslash followed by a double quote
    stands for a double quote and does not close the string, two
    backslashes stand for themselves, and the first other double quote
    closes the string.  The result is the text read and what follows the
    closing quote; [None] when the string is never closed. *)
Fixpoint dot_qstring (s : string) : option (string * string) :=
  match s with
  | EmptyString => None
  | String c rest =>
      if Ascii.eqb c dquote then Some (EmptyString, rest)
      else if Ascii.eqb c backslash then
        match rest with
        | String c' rest' =>
            if Ascii.eqb c' dquote then
              prod_map (String dquote) id <$> dot_qstring rest'
            else if Ascii.eqb c' backslash then
              prod_map (fun t => String backslash (String backslash t)) id
                <$> dot_qstring rest'
            else prod_map (String c) id <$> dot_qstring rest
        | EmptyString => None
        end
      else prod_map (String c) id <$> dot_qstring rest
  end.

(** Every double quote of [s] comes right after a backslash; [prev] is the
    byte before [s]. *)
Fixpoint quotes_escaped (prev : ascii) (s : string) : bool :=
  match s with
  | EmptyString => true
  | String c rest =>
      (if Ascii.eqb c dquote then Ascii.eqb prev backslash else true)
      && quotes_escaped c rest
  end.

(** [s] holds no backslash. *)
Fixpoint backslash_free (s : string) : bool :=
  match s with
  | EmptyString => true
  | String c rest => negb (Ascii.eqb c backslash) && backslash_free rest
  end.

(** *** ParseEdgeType and the request filter *)

(** [ParseEdgeType]: a [switch] on the string, [EdgeTypeUnknown] by
    default. *)
Definition ParseEdgeType (s : string) : EdgeType :=
  if String.eqb s "blocks" then EdgeTypeBlocks
  else if String.eqb s "blocked_by" then EdgeTypeBlockedBy
  else if String.eqb s "parent" then EdgeTypeParent
  else if String.eqb s "child" then EdgeTypeChild
  else if String.eqb s "waits_for" then EdgeTypeWaitsFor
  else if String.eqb s "waited_by" then EdgeTypeWaitedBy
  else if String.eqb s "conditional_blocks" then EdgeTypeConditional
  else if String.eqb s "relates_to" then EdgeTypeRelates
  else if String.eqb s "duplicates" then EdgeTypeDuplicates
  else if String.eqb s "mentions" then EdgeTypeMentions
  else if String.eqb s "derived_from" then EdgeTypeDerivedFrom
  else if String.eqb s "supersedes" then EdgeTypeSupersedes
  else if String.eqb s "implements" then EdgeTypeImplements
  else EdgeTypeUnknown.

(** The fourteen [EdgeType] constants, in the order of their declaration. *)
Definition edge_types : list EdgeType :=
  [EdgeTypeBlocks; EdgeTypeBlockedBy; EdgeTypeParent; EdgeTypeChild;
   EdgeTypeWaitsFor; EdgeTypeWaitedBy; EdgeTypeConditional;
   EdgeTypeRelates; EdgeTypeDuplicates; EdgeTypeMentions;
   EdgeTypeDerivedFrom; EdgeTypeSupersedes; EdgeTypeImplements;
   EdgeTypeUnknown].

(** [s] holds no double quote. *)
Fixpoint quote_free (s : string) : bool :=
  match s with
  | EmptyString => true
  | String c rest => negb (Ascii.eqb c dquote) && quote_free rest
  end.

(** [IssueFilter]: the fields the list handler sets and the adapter reads
    (the struct is declared in another file of the package). *)
Record IssueFilter : Type := mkFilter {
  Filter_Status : string;
  Filter_Parent : string;
  Filter_Search : string;
  Filter_Limit : Z;
  Filter_Offset : Z
}.

End Model.

(** ** Package beads: the CLI adapter's graph builder *)

Module Beads.
Import Model.

(** [mapDepTypeToEdgeType]: a [switch] on the dependency type string. *)
Definition mapDepTypeToEdgeType (depType : string) : EdgeType :=
  if String.eqb depType "blocks" then EdgeTypeBlocks
  else if String.eqb depType "blocked_by" then EdgeTypeBlockedBy
  else if String.eqb depType "parent-child" || String.eqb depType "parent"
    then EdgeTypeParent
  else if String.eqb depType "child" then EdgeTypeChild
  else if String.eqb depType "waits_for" then EdgeTypeWaitsFor
  else if String.eqb depType "waited_by" then EdgeTypeWaitedBy
  else if String.eqb depType "conditional_blocks" then EdgeTypeConditional
  else if String.eqb depType "relates_to" then EdgeTypeRelates
  else if String.eqb depType "duplicates" then EdgeTypeDuplicates
  else if String.eqb depType "mentions" then EdgeTypeMentions
  else if String.eqb depType "derived_from" then EdgeTypeDerivedFrom
  else if String.eqb depType "supersedes" then EdgeTypeSupersedes
  else if String.eqb depType "implements" then EdgeTypeImplements
  else EdgeTypeBlocks.

(** The case labels of that [switch]: the recognized names. *)
Definition recognized_dep_types : list string :=
  ["blocks"; "blocked_by"; "parent-child"; "parent"; "child"; "waits_for";
   "waited_by"; "conditional_blocks"; "relates_to"; "duplicates"; "mentions";
   "derived_from"; "supersedes"; "implements"].

(** One entry of an issue's [Dependencies] or [Dependents]: the fields the
    builder reads. *)
Record BDDependency : Type := mkDep {
  Dep_ID : string;
  DepType : string
}.

(** One entry of the [bd blocked --json] listing: the fields the builder
    reads. *)
Record BDBlocked : Type := mkBlocked {
  Blocked_ID : string;
  Blocked_BlockedBy : list string
}.

(** Indexing a Go [map[string]bool]: [false] when the key is absent. *)
Definition index_bool (m : gmap string bool) (k : string) : bool :=
  default false (m !! k).

(** What an executor call followed by a parse yields. *)
Inductive fetched (error A : Type) : Type :=
| ExecFailed (err : error)
| ParseFailed (err : error)
| Parsed (a : A).
Arguments ExecFailed {error A} err.
Arguments ParseFailed {error A} err.
Arguments Parsed {error A} a.

(** The errors [Graph] returns: the executor's own, or a [ParseError]. *)
Inductive graph_error (error : Type) : Type :=
| ExecutorError (err : error)
| ParseError (Command : string) (Err : error).
Arguments ExecutorError {error} err.
Arguments ParseError {error} Command Err.

Section Adapter.

(** The parsed issue record, [mapStatus] and [mapPriority] live in files
    this development does not cover: the raw status and priority types and
    the two mappings are parameters. *)
Context {RawStatus RawPriority Priority error : Type}.
Variable mapStatus : RawStatus -> Status.
Variable mapPriority : RawPriority -> Priority.

(** A parsed issue: the fields the builder reads. *)
Record BDIssue : Type := mkIssue {
  Issue_ID : string;
  Issue_Title : string;
  Issue_Status : RawStatus;
  Issue_Priority : RawPriority;
  Dependencies : list BDDependency;
  Dependents : list BDDependency;
  BlockedBy : list string
}.

(** The local variables [graph] and [edgeSet] of [Graph]. *)
Record build : Type := mkBuild {
  graph : Graph Priority;
  edgeSet : gmap string bool
}.

(** First loop: one node per issue, and its ID entered in [nodeMap]. *)
Definition add_issue_node (acc : Graph Priority * gmap string bool)
    (bi : BDIssue) : Graph Priority * gmap string bool :=
  (AddNode (fst acc)
     {| ID := Issue_ID bi; Title := Issue_Title bi;
        Status_ := mapStatus (Issue_Status bi);
        Priority_ := mapPriority (Issue_Priority bi) |},
   <[Issue_ID bi := true]> (snd acc)).

(** Body of the loop over [bi.Dependencies]. *)
Definition add_dependency (nodeMap : gmap string bool) (bi : BDIssue)
    (st : build) (dep : BDDependency) : build :=
  let edgeType := mapDepTypeToEdgeType (DepType dep) in
  let edgeKey := Issue_ID bi +:+ "->" +:+ Dep_ID dep +:+ ":" +:+ edgeType in
  if index_bool nodeMap (Dep_ID dep) && negb (index_bool (edgeSet st) edgeKey)
  then {| graph := AddEdge (graph st)
                     {| From := Dep_ID dep; To := Issue_ID bi; Type_ := edgeType |};
          edgeSet := <[edgeKey := true]> (edgeSet st) |}
  else st.

(** Body of the loop over [bi.Dependents]. *)
Definition add_dependent (nodeMap : gmap string bool) (bi : BDIssue)
    (st : build) (dep : BDDependency) : build :=
  let edgeType := mapDepTypeToEdgeType (DepType dep) in
  let edgeKey := Dep_ID dep +:+ "->" +:+ Issue_ID bi +:+ ":" +:+ edgeType in
  if index_bool nodeMap (Dep_ID dep) && negb (index_bool (edgeSet st) edgeKey)
  then {| graph := AddEdge (graph st)
                     {| From := Issue_ID bi; To := Dep_ID dep; Type_ := edgeType |};
          edgeSet := <[edgeKey := true]> (edgeSet st) |}
  else st.

(** Body of the loop over [bi.BlockedBy]. *)
Definition add_blocker (nodeMap : gmap string bool) (bi : BDIssue)
    (st : build) (blockerID : string) : build :=
  let edgeKey := blockerID +:+ "->" +:+ Issue_ID bi +:+ ":blocks" in
  if index_bool nodeMap blockerID && negb (index_bool (edgeSet st) edgeKey)
  then {| graph := AddEdge (graph st)
                     {| From := blockerID; To := Issue_ID bi; Type_ := EdgeTypeBlocks |};
          edgeSet := <[edgeKey := true]> (edgeSet st) |}
  else st.

(** Body of the second loop over [bdIssues]: the three inner loops. *)
Definition add_issue_edges (nodeMap : gmap string bool) (st : build)
    (bi : BDIssue) : build :=
  let st := fold_left (add_dependency nodeMap bi) (Dependencies bi) st in
  let st := fold_left (add_dependent nodeMap bi) (Dependents bi) st in
  fold_left (add_blocker nodeMap bi) (BlockedBy bi) st.

(** Body of the inner loop over the blocked listing. *)
Definition add_blocked (nodeMap : gmap string bool) (bi : BDBlocked)
    (st : build) (blockerID : string) : build :=
  let edgeKey := blockerID +:+ "->" +:+ Blocked_ID bi +:+ ":blocks" in
  if index_bool nodeMap blockerID && index_bool nodeMap (Blocked_ID bi)
     && negb (index_bool (edgeSet st) edgeKey)
  then {| graph := AddEdge (graph st)
                     {| From := blockerID; To := Blocked_ID bi; Type_ := EdgeTypeBlocks |};
          edgeSet := <[edgeKey := true]> (edgeSet st) |}
  else st.

Definition add_blocked_issue (nodeMap : gmap string bool) (st : build)
    (bi : BDBlocked) : build :=
  fold_left (add_blocked nodeMap bi) (Blocked_BlockedBy bi) st.

(** The nodes and [nodeMap] after the first loop. *)
Definition graph_nodes (bdIssues : list BDIssue)
    : Graph Priority * gmap string bool :=
  fold_left add_issue_node bdIssues (NewGraph, ∅).

(** [Graph] once the issue list is parsed: the loops over [bdIssues], then
    the blocked listing when both its fetch and its parse succeeded. *)
Definition build_graph (bdIssues : list BDIssue)
    (blockedOut : fetched error (list BDBlocked)) : Graph Priority :=
  let '(g, nodeMap) := graph_nodes bdIssues in
  let st := {| graph := g; edgeSet := ∅ |} in
  let st := fold_left (add_issue_edges nodeMap) bdIssues st in
  let st :=
    match blockedOut with
    | Parsed blockedIssues =>
        fold_left (add_blocked_issue nodeMap) blockedIssues st
    | _ => st
    end in
  graph st.

(** [CLIAdapter.Graph], given what the two executor calls and their parses
    yield. *)
Definition CLIAdapter_Graph (listOut : fetched error (list BDIssue))
    (blockedOut : fetched error (list BDBlocked))
    : graph_error error + Graph Priority :=
  match listOut with
  | ExecFailed err => inl (ExecutorError err)
  | ParseFailed err => inl (ParseError "list" err)
  | Parsed bdIssues => inr (build_graph bdIssues blockedOut)
  end.

End Adapter.

Arguments BDIssue : clear implicits.
Arguments build : clear implicits.

(** *** The other methods of the adapter *)

(** The errors the methods return: the executor's own, a [ParseError], or a
    [NotFoundError]. *)
Inductive adapter_error (error : Type) : Type :=
| ErrExecutor (err : error)
| ErrParse (Command : string) (Err : error)
| ErrNotFound (ID : string).
Arguments ErrExecutor {error} err.
Arguments ErrParse {error} Command Err.
Arguments ErrNotFound {error} ID.

Section Methods.

(** The executor, the parsers of its output, the conversion to the model's
    issue and the classification of errors live in files this development
    does not cover: they are parameters.  [Execute args] is
    [a.executor.Execute(ctx, a.workDir, args...)]. *)
Context {Output error RawStatus RawPriority Priority Issue : Type}.
Variable Execute : list string -> error + Output.
Variable ParseIssueList : Output -> error + list (BDIssue RawStatus RawPriority).
Variable ParseBlockedList : Output -> error + list BDBlocked.
Variable ToModelIssue : BDIssue RawStatus RawPriority -> Issue.
Variable ParseVersion : Output -> string.
Variables IsNotFoundError IsNotInitializedError : error -> bool.
Variable mapStatus : RawStatus -> Status.
Variable mapPriority : RawPriority -> Priority.

(** The arguments [ListIssues] passes to the executor. *)
Definition list_args (filter : IssueFilter) : list string :=
  let args := ["list"; "--json"] in
  if negb (String.eqb (Filter_Status filter) EmptyString)
  then args ++ ["--status"; Filter_Status filter]
  else args.

(** [CLIAdapter.ListIssues]. *)
Definition ListIssues (filter : IssueFilter) : adapter_error error + list Issue :=
  match Execute (list_args filter) with
  | inl err => inl (ErrExecutor err)
  | inr output =>
      match ParseIssueList output with
      | inl err => inl (ErrParse "list" err)
      | inr bdIssues => inr (List.map ToModelIssue bdIssues)
      end
  end.

(** [CLIAdapter.GetIssue]. *)
Definition GetIssue (id : string) : adapter_error error + Issue :=
  match Execute ["show"; id; "--json"] with
  | inl err =>
      if IsNotFoundError err then inl (ErrNotFound id) else inl (ErrExecutor err)
  | inr output =>
      match ParseIssueList output with
      | inl err => inl (ErrParse "show" err)
      | inr [] => inl (ErrNotFound id)
      | inr (bi :: _) => inr (ToModelIssue bi)
      end
  end.

(** [CLIAdapter.IsInitialized]: the boolean and the error it returns. *)
Definition IsInitialized : bool * option error :=
  match Execute ["status"] with
  | inl err =>
      if IsNotInitializedError err then (false, None) else (false, Some err)
  | inr _ => (true, None)
  end.

(** [CLIAdapter.Version]. *)
Definition Version : error + string :=
  match Execute ["--version"] with
  | inl err => inl err
  | inr output => inr (ParseVersion output)
  end.

(** An executor call followed by a parse, as [Graph] makes them. *)
Definition fetch {A : Type} (args : list string) (parse : Output -> error + A)
    : fetched error A :=
  match Execute args with
  | inl err => ExecFailed err
  | inr output =>
      match parse output with
      | inl err => ParseFailed err
      | inr a => Parsed a
      end
  end.

(** [CLIAdapter.Graph] with its two executor calls. *)
Definition Graph_of_executor : graph_error error + Graph Priority :=
  CLIAdapter_Graph mapStatus mapPriority
    (fetch ["list"; "--json"] ParseIssueList)
    (fetch ["blocked"; "--json"] ParseBlockedList).

End Methods.

End Beads.

(** ** Package api: the graph endpoint and the SSE broker *)

Module Api.
Import Model.

(** *** HTTP responses *)

Definition StatusOK : Z := 200.
Definition StatusNotFound : Z := 404.
Definition StatusInternalServerError : Z := 500.
Definition StatusNotImplemented : Z := 501.
Definition StatusServiceUnavailable : Z := 503.

(** What a handler hands to [Write]: raw text, or the output of a JSON
    encoder (the encoded value, which the encoder ends with a newline). *)
Inductive chunk : Type :=
| Text (s : string)
| Encoded (j : json).

(** An [http.ResponseWriter]: the header map, the status code once it is
    written, and the body written so far. *)
Record ResponseWriter : Type := mkWriter {
  Header : gmap string string;
  Code : option Z;
  Body : list chunk
}.

(** The writer a handler starts with. *)
Definition NewRecorder : ResponseWriter :=
  {| Header := ∅; Code := None; Body := [] |}.

(** [w.Header().Set(key, value)]. *)
Definition Header_Set (w : ResponseWriter) (key value : string) : ResponseWriter :=
  {| Header := <[key := value]> (Header w); Code := Code w; Body := Body w |}.

(** [w.WriteHeader(status)]: only the first call sets the code. *)
Definition WriteHeader (w : ResponseWriter) (status : Z) : ResponseWriter :=
  {| Header := Header w;
     Code := match Code w with Some c => Some c | None => Some status end;
     Body := Body w |}.

(** [w.Write(data)]: an implicit [WriteHeader(200)] if none came before. *)
Definition Write_ (w : ResponseWriter) (data : chunk) : ResponseWriter :=
  let w := WriteHeader w StatusOK in
  {| Header := Header w; Code := Code w; Body := Body w ++ [data] |}.

(** [writeJSON]. *)
Definition writeJSON (w : ResponseWriter) (status : Z) (data : json)
    : ResponseWriter :=
  let w := Header_Set w "Content-Type" "application/json" in
  let w := WriteHeader w status in
  Write_ w (Encoded data).

(** [ErrorResponse], encoded: [Details] is left nil by [writeError] and is
    tagged omitempty, so two members remain. *)
Definition ErrorResponse_json (Error Code : string) : json :=
  JObject [("error", JString Error); ("code", JString Code)].

(** [writeError]. *)
Definition writeError (w : ResponseWriter) (status : Z) (code message : string)
    : ResponseWriter :=
  writeJSON w status (ErrorResponse_json message code).

(** [r.URL.Query().Get(key)]: the first value of the key, or the empty
    string. *)
Definition Query_Get (query : gmap string (list string)) (key : string) : string :=
  match query !! key with
  | Some (v :: _) => v
  | _ => EmptyString
  end.

Section Handlers.

(** The adapter's errors and their classification live in package beads,
    in files this development does not cover, as does the server's
    [checkBeadsInitialized]; they are parameters. *)
Context {Priority error : Type}.
Variable Priority_json : Priority -> json.
Variable Error_ : error -> string.
Variables IsBDNotFoundError IsNotInitializedError IsNotFoundError IsParseError
  : error -> bool.
Variable checkBeadsInitialized : ResponseWriter -> bool * ResponseWriter.

(** [handleAdapterError]. *)
Definition handleAdapterError (w : ResponseWriter) (err : error) : ResponseWriter :=
  if IsBDNotFoundError err then
    writeError w StatusServiceUnavailable "BD_NOT_FOUND" (Error_ err)
  else if IsNotInitializedError err then
    writeError w StatusServiceUnavailable "BEADS_NOT_INIT" (Error_ err)
  else if IsNotFoundError err then
    writeError w StatusNotFound "ISSUE_NOT_FOUND" (Error_ err)
  else if IsParseError err then
    writeError w StatusInternalServerError "PARSE_ERROR" (Error_ err)
  else writeError w StatusInternalServerError "BD_ERROR" (Error_ err).

(** [handleGraph]; [fetch] is what [s.adapter.Graph(ctx)] returns. *)
Definition handleGraph (w : ResponseWriter) (query : gmap string (list string))
    (fetch : error + Graph Priority) : ResponseWriter :=
  let '(ok, w) := checkBeadsInitialized w in
  if negb ok then w
  else
    let format := Query_Get query "format" in
    let format := if String.eqb format EmptyString then "json" else format in
    match fetch with
    | inl err => handleAdapterError w err
    | inr graph =>
        if String.eqb format "dot" then
          let w := Header_Set w "Content-Type" "text/vnd.graphviz; charset=utf-8" in
          let w := Header_Set w "Content-Disposition"
                     ("inline; filename=" +:+ dq +:+ "dependencies.dot" +:+ dq) in
          let w := WriteHeader w StatusOK in
          Write_ w (Text (ToDOT graph))
        else if String.eqb format "svg" then
          writeError w StatusNotImplemented "NOT_IMPLEMENTED"
            "SVG export requires graphviz. Use DOT format and convert with 'dot -Tsvg'"
        else writeJSON w StatusOK (Graph_json Priority_json graph)
    end.

End Handlers.

(** *** The SSE broker *)

(** A buffered Go channel of messages: what is queued, how much fits, and
    whether [close] was called on it. *)
Record channel : Type := mkChan {
  buffer : list string;
  capacity : nat;
  closed : bool
}.

(** [make(chan []byte, n)]. *)
Definition make_chan (n : nat) : channel :=
  {| buffer := []; capacity := n; closed := false |}.

(** How a statement on channels ends: it completes, it blocks, or it
    panics. *)
Inductive outcome (A : Type) : Type :=
| Returns (a : A)
| Blocks
| Panics.
Arguments Returns {A} a.
Arguments Blocks {A}.
Arguments Panics {A}.

Definition has_room (ch : channel) : bool :=
  bool_decide (length (buffer ch) < capacity ch).

Definition enqueue (msg : string) (ch : channel) : channel :=
  {| buffer := buffer ch ++ [msg]; capacity := capacity ch; closed := closed ch |}.

(** [ch <- msg] on a buffered channel: a panic on a closed channel, the
    message queued when there is room, the sender blocked otherwise. *)
Definition send (msg : string) (ch : channel) : outcome channel :=
  if closed ch then Panics
  else if has_room ch then Returns (enqueue msg ch)
  else Blocks.

(** [select { case ch <- msg: default: }]: where the send would block, the
    default branch runs instead and nothing is queued. *)
Definition select_send_default (msg : string) (ch : channel) : outcome channel :=
  match send msg ch with
  | Blocks => Returns ch
  | r => r
  end.

(** [close(ch)]: a panic on a channel closed before. *)
Definition close (ch : channel) : outcome channel :=
  if closed ch then Panics
  else Returns {| buffer := buffer ch; capacity := capacity ch; closed := true |}.

(** Channels are reference values: a client channel is named by the index
    of its cell in the store of channels made so far. *)
Definition chan_ref : Type := nat.

(** What [log.Printf] is called with: "SSE client connected (%d total)"
    and "SSE client disconnected (%d total)" with the size of the live set,
    "SSE marshal error: %v" with the error. *)
Inductive log_line (error : Type) : Type :=
| LogConnected (total : nat)
| LogDisconnected (total : nat)
| LogMarshalError (err : error).
Arguments LogConnected {error} total.
Arguments LogDisconnected {error} total.
Arguments LogMarshalError {error} err.

(** The capacity of [b.broadcast]. *)
Definition broadcast_capacity : nat := 100.

(** The capacity of a subscriber's channel. *)
Definition client_capacity : nat := 10.

Section Broker.

(** The event type and its JSON encoding live in files this development
    does not cover: the payload type, [json.Marshal] on payloads and the
    heartbeat event are parameters. *)
Context {Payload error : Type}.
Variable json_Marshal : Payload -> string + error.

(** [model.Event]: the two fields [Broadcast] reads. *)
Record Event : Type := mkEvent {
  Event_Type : string;
  Data : Payload
}.

Variable NewHeartbeat : Event.

(** [SSEBroker] together with the channels its clients refer to.  The
    [register] and [unregister] channels are unbuffered: a send on them
    completes by handing the value to the loop, so they hold no state.  The
    [broadcast] channel is never closed: it is its queue.  [running] tells
    whether the loop of [Start] is executing. *)
Record SSEBroker : Type := mkBroker {
  chans : gmap chan_ref channel;
  clients : gmap chan_ref bool;
  broadcast : list string;
  done : bool;
  running : bool;
  logged : list (log_line error)
}.

(** [NewSSEBroker]. *)
Definition NewSSEBroker : SSEBroker :=
  {| chans := ∅; clients := ∅; broadcast := []; done := false;
     running := false; logged := [] |}.

Definition set_chans (b : SSEBroker) (cs : gmap chan_ref channel) : SSEBroker :=
  {| chans := cs; clients := clients b; broadcast := broadcast b;
     done := done b; running := running b; logged := logged b |}.

Definition set_clients (b : SSEBroker) (cl : gmap chan_ref bool) : SSEBroker :=
  {| chans := chans b; clients := cl; broadcast := broadcast b;
     done := done b; running := running b; logged := logged b |}.

Definition set_broadcast (b : SSEBroker) (q : list string) : SSEBroker :=
  {| chans := chans b; clients := clients b; broadcast := q;
     done := done b; running := running b; logged := logged b |}.

Definition set_done (b : SSEBroker) (d : bool) : SSEBroker :=
  {| chans := chans b; clients := clients b; broadcast := broadcast b;
     done := d; running := running b; logged := logged b |}.

Definition set_running (b : SSEBroker) (r : bool) : SSEBroker :=
  {| chans := chans b; clients := clients b; broadcast := broadcast b;
     done := done b; running := r; logged := logged b |}.

Definition log_Printf (b : SSEBroker) (l : log_line error) : SSEBroker :=
  {| chans := chans b; clients := clients b; broadcast := broadcast b;
     done := done b; running := running b; logged := logged b ++ [l] |}.

(** The live set: the keys of [b.clients]. *)
Definition live (b : SSEBroker) (client : chan_ref) : Prop :=
  is_Some (clients b !! client).

(** **** The cases of the loop in [Start] *)

(** [case client := <-b.register]. *)
Definition loop_register (client : chan_ref) (b : SSEBroker) : SSEBroker :=
  let b := set_clients b (<[client := true]> (clients b)) in
  log_Printf b (LogConnected (size (clients b))).

(** [case client := <-b.unregister]. *)
Definition loop_unregister (client : chan_ref) (b : SSEBroker)
    : outcome SSEBroker :=
  match clients b !! client with
  | Some _ =>
      let b := set_clients b (delete client (clients b)) in
      match chans b !! client with
      | Some ch =>
          match close ch with
          | Returns ch' =>
              let b := set_chans b (<[client := ch']> (chans b)) in
              Returns (log_Printf b (LogDisconnected (size (clients b))))
          | Blocks => Blocks
          | Panics => Panics
          end
      | None => Panics
      end
  | None => Returns (log_Printf b (LogDisconnected (size (clients b))))
  end.

(** The [for client := range b.clients] of the broadcast case, the keys
    being visited in the order [order]; a key without a channel behind it
    is a nil channel, on which the send is never ready. *)
Fixpoint fan_out (order : list chan_ref) (msg : string)
    (cs : gmap chan_ref channel) : outcome (gmap chan_ref channel) :=
  match order with
  | [] => Returns cs
  | client :: rest =>
      match cs !! client with
      | Some ch =>
          match select_send_default msg ch with
          | Returns ch' => fan_out rest msg (<[client := ch']> cs)
          | Blocks => Blocks
          | Panics => Panics
          end
      | None => fan_out rest msg cs
      end
  end.

(** [case msg := <-b.broadcast]: ready when the queue is not empty. *)
Definition loop_broadcast (order : list chan_ref) (b : SSEBroker)
    : outcome SSEBroker :=
  match broadcast b with
  | [] => Blocks
  | msg :: queue =>
      let b := set_broadcast b queue in
      match fan_out order msg (chans b) with
      | Returns cs => Returns (set_chans b cs)
      | Blocks => Blocks
      | Panics => Panics
      end
  end.

(** **** The methods *)

(** The message [Broadcast] formats for a type and marshalled data. *)
Definition sse_message (type data : string) : string :=
  "event: " +:+ type +:+ nl +:+ "data: " +:+ data +:+ nl +:+ nl.

(** [Broadcast]. *)
Definition Broadcast (event : Event) (b : SSEBroker) : outcome SSEBroker :=
  match json_Marshal (Data event) with
  | inr err => Returns (log_Printf b (LogMarshalError err))
  | inl data =>
      let msg := sse_message (Event_Type event) data in
      if bool_decide (length (broadcast b) < broadcast_capacity)
      then Returns (set_broadcast b (broadcast b ++ [msg]))
      else Blocks
  end.

(** [sendHeartbeat], the body of [case <-heartbeatTicker.C]. *)
Definition sendHeartbeat (b : SSEBroker) : outcome SSEBroker :=
  Broadcast NewHeartbeat b.

(** [Start]: the loop begins; its iterations are the cases above. *)
Definition Start (b : SSEBroker) : SSEBroker := set_running b true.

(** [case <-b.done: return], ready once [done] is closed. *)
Definition loop_done (b : SSEBroker) : outcome SSEBroker :=
  if done b then Returns (set_running b false) else Blocks.

(** [Subscribe]: a new channel, handed to the loop over [register]; the
    send completes when the loop takes it. *)
Definition Subscribe (b : SSEBroker) : outcome (chan_ref * SSEBroker) :=
  let client := fresh (dom (chans b)) in
  let b := set_chans b (<[client := make_chan client_capacity]> (chans b)) in
  if running b then Returns (client, loop_register client b) else Blocks.

(** [Unsubscribe]: the channel handed to the loop over [unregister]. *)
Definition Unsubscribe (client : chan_ref) (b : SSEBroker) : outcome SSEBroker :=
  if running b then loop_unregister client b else Blocks.

(** The [for client := range b.clients { close(client) }] of [Stop]. *)
Fixpoint close_all (order : list chan_ref) (cs : gmap chan_ref channel)
    : outcome (gmap chan_ref channel) :=
  match order with
  | [] => Returns cs
  | client :: rest =>
      match cs !! client with
      | Some ch =>
          match close ch with
          | Returns ch' => close_all rest (<[client := ch']> cs)
          | Blocks => Blocks
          | Panics => Panics
          end
      | None => Panics
      end
  end.

(** [Stop]. *)
Definition Stop (order : list chan_ref) (b : SSEBroker) : outcome SSEBroker :=
  if done b then Panics
  else
    let b := set_done b true in
    match close_all order (chans b) with
    | Returns cs => Returns (set_clients (set_chans b cs) ∅)
    | Blocks => Blocks
    | Panics => Panics
    end.

(** [msg, ok := <-client] in the events handler, when a message is
    queued. *)
Definition receive (client : chan_ref) (b : SSEBroker)
    : option (string * SSEBroker) :=
  match chans b !! client with
  | Some ch =>
      match buffer ch with
      | msg :: rest =>
          Some (msg, set_chans b (<[client :=
                  {| buffer := rest; capacity := capacity ch; closed := closed ch |}]>
                  (chans b)))
      | [] => None
      end
  | None => None
  end.

(** Go visits the keys of a map in an unspecified order, each once. *)
Definition visits (order : list chan_ref) (m : gmap chan_ref bool) : Prop :=
  order ≡ₚ elements (dom m).

(** The moves of the system: the callers' methods, the loop's cases and
    the handlers' receives, interleaved. *)
Inductive step : SSEBroker -> SSEBroker -> Prop :=
| step_Start b : step b (Start b)
| step_Subscribe b client b' :
    Subscribe b = Returns (client, b') -> step b b'
| step_Unsubscribe b client b' :
    Unsubscribe client b = Returns b' -> step b b'
| step_Broadcast b event b' :
    Broadcast event b = Returns b' -> step b b'
| step_loop_broadcast b order b' :
    running b = true -> visits order (clients b) ->
    loop_broadcast order b = Returns b' -> step b b'
| step_heartbeat b b' :
    running b = true -> sendHeartbeat b = Returns b' -> step b b'
| step_loop_done b b' :
    running b = true -> loop_done b = Returns b' -> step b b'
| step_receive b client msg b' :
    receive client b = Some (msg, b') -> step b b'
| step_Stop b order b' :
    visits order (clients b) -> Stop order b = Returns b' -> step b b'.

(** The states the broker can be in. *)
Inductive reachable : SSEBroker -> Prop :=
| reachable_new : reachable NewSSEBroker
| reachable_step b b' : reachable b -> step b b' -> reachable b'.

(** A channel of the store that is not closed. *)
Definition is_open (cs : gmap chan_ref channel) (client : chan_ref) : Prop :=
  exists ch, cs !! client = Some ch /\ closed ch = false.

(** Every live subscriber is a channel that was made and is not closed. *)
Definition live_open (b : SSEBroker) : Prop :=
  forall client, live b client -> is_open (chans b) client.

(** What the fan-out does to one subscriber's channel. *)
Definition offer (msg : string) (ch : channel) : channel :=
  if has_room ch then enqueue msg ch else ch.

End Broker.

Arguments Event : clear implicits.
Arguments SSEBroker : clear implicits.

(** *** The health and list handlers *)

Definition StatusBadRequest : Z := 400.

(** [HealthResponse]. *)
Record HealthResponse : Type := mkHealth {
  Health_Status : string;
  BeadsInitialized : bool;
  Health_Version : string;
  BDVersion : string;
  Health_Error : string
}.

(** [model.IssueListResponse]: the fields the list handler fills. *)
Record IssueListResponse (Issue : Type) : Type := mkIssueList {
  Issues : list Issue;
  Total : Z;
  Resp_Limit : Z;
  Resp_Offset : Z
}.
Arguments mkIssueList {Issue} Issues Total Resp_Limit Resp_Offset.
Arguments Issues {Issue} i.
Arguments Total {Issue} i.
Arguments Resp_Limit {Issue} i.
Arguments Resp_Offset {Issue} i.

Section MoreHandlers.

(** The server's configuration, the adapter behind its interface,
    [strconv.Atoi], [model.NewIssueFilter] and the encoding of the list
    response are parameters. *)
Context {Issue error : Type}.
Variable config_Version : string.
Variable Error_ : error -> string.
Variables IsBDNotFoundError IsNotInitializedError IsNotFoundError IsParseError
  : error -> bool.
Variable checkBeadsInitialized : ResponseWriter -> bool * ResponseWriter.
Variable Atoi : string -> option Z.
Variable NewIssueFilter : IssueFilter.
Variable IssueListResponse_json : IssueListResponse Issue -> json.

(** [handleHealth], up to its single call of [writeJSON]: the status and
    the response it passes.  [initialized] is what
    [s.adapter.IsInitialized(ctx)] returns and [version] what
    [s.adapter.Version(ctx)] returns. *)
Definition handleHealth (initialized : bool * option error)
    (version : error + string) : Z * HealthResponse :=
  let resp := {| Health_Status := EmptyString; BeadsInitialized := false;
                 Health_Version := config_Version; BDVersion := EmptyString;
                 Health_Error := EmptyString |} in
  match initialized with
  | (_, Some err) =>
      if IsBDNotFoundError err then
        (StatusServiceUnavailable,
         {| Health_Status := "error"; BeadsInitialized := false;
            Health_Version := Health_Version resp; BDVersion := BDVersion resp;
            Health_Error :=
              "bd CLI not found in PATH. Install from https://github.com/intent-solutions-io/beads" |})
      else
        (StatusInternalServerError,
         {| Health_Status := "error"; BeadsInitialized := BeadsInitialized resp;
            Health_Version := Health_Version resp; BDVersion := BDVersion resp;
            Health_Error := Error_ err |})
  | (initialized, None) =>
      if negb initialized then
        (StatusServiceUnavailable,
         {| Health_Status := "error"; BeadsInitialized := initialized;
            Health_Version := Health_Version resp; BDVersion := BDVersion resp;
            Health_Error :=
              "Beads not initialized. Run 'bd init' in your project directory." |})
      else
        (StatusOK,
         {| Health_Status := "ok"; BeadsInitialized := initialized;
            Health_Version := Health_Version resp;
            BDVersion := match version with
                         | inr v => v
                         | inl _ => BDVersion resp
                         end;
            Health_Error := Health_Error resp |})
  end.

(** The filter [handleListIssues] builds from the query. *)
Definition list_filter (query : gmap string (list string)) : IssueFilter :=
  let filter := NewIssueFilter in
  let filter :=
    {| Filter_Status := Query_Get query "status";
       Filter_Parent := Query_Get query "parent";
       Filter_Search := Query_Get query "search";
       Filter_Limit := Filter_Limit filter;
       Filter_Offset := Filter_Offset filter |} in
  let limitStr := Query_Get query "limit" in
  let filter :=
    if negb (String.eqb limitStr EmptyString) then
      match Atoi limitStr with
      | Some limit =>
          if (0 <? limit)%Z then
            {| Filter_Status := Filter_Status filter;
               Filter_Parent := Filter_Parent filter;
               Filter_Search := Filter_Search filter;
               Filter_Limit := limit;
               Filter_Offset := Filter_Offset filter |}
          else filter
      | None => filter
      end
    else filter in
  let offsetStr := Query_Get query "offset" in
  if negb (String.eqb offsetStr EmptyString) then
    match Atoi offsetStr with
    | Some offset =>
        if (0 <=? offset)%Z then
          {| Filter_Status := Filter_Status filter;
             Filter_Parent := Filter_Parent filter;
             Filter_Search := Filter_Search filter;
             Filter_Limit := Filter_Limit filter;
             Filter_Offset := offset |}
        else filter
    | None => filter
    end
  else filter.

(** [handleListIssues]; [adapter_ListIssues] is [s.adapter.ListIssues]. *)
Definition handleListIssues (w : ResponseWriter)
    (query : gmap string (list string))
    (adapter_ListIssues : IssueFilter -> error + list Issue) : ResponseWriter :=
  let '(ok, w) := checkBeadsInitialized w in
  if negb ok then w
  else
    let filter := list_filter query in
    match adapter_ListIssues filter with
    | inl err =>
        handleAdapterError Error_ IsBDNotFoundError IsNotInitializedError
          IsNotFoundError IsParseError w err
    | inr issues =>
        writeJSON w StatusOK
          (IssueListResponse_json
             {| Issues := issues; Total := len issues;
                Resp_Limit := Filter_Limit filter;
                Resp_Offset := Filter_Offset filter |})
    end.

End MoreHandlers.

(** *** The events handler *)


(** Where a call of the events handler stands: the stream headers set and
    [Subscribe] to be called; in its loop, holding the channel that
    [Subscribe] returned; out of the loop, the deferred [Unsubscribe] to be
    run; or returned.  [w] is the response so far and [flushes] the number
    of [Flush] calls so far. *)
Inductive handler : Type :=
| Subscribing (w : ResponseWriter)
| Streaming (client : chan_ref) (w : ResponseWriter) (flushes : nat)
| Leaving (client : chan_ref) (w : ResponseWriter) (flushes : nat)
| Returned (w : ResponseWriter) (flushes : nat).


(** The case that a [select] of the handler's loop takes. *)
Inductive select_case : Type :=
| CtxDone
| FromClient.

Section EventsHandler.

Context {Payload error : Type}.
Variable json_Marshal : Payload -> string + error.
Variable NewHeartbeat : Event Payload.


(** What a move of the handler takes off its channel. *)
Definition taken (case : select_case) (h : handler) (b : SSEBroker error)
    : list string :=
  match h, case with
  | Streaming client _ _, FromClient =>
      match receive client b with
      | Some (msg, _) => [msg]
      | None => []
      end
  | _, _ => []
  end.


End EventsHandler.

End Api.

(** ** The web client: the dependency graph component *)

Module Web.
Import Model.

(** The edge types selected when the component mounts. *)
Definition defaultSelected : gset string :=
  {["blocks"; "blocked_by"; "parent"; "child"]}.

(** [toggleEdgeType]: a copy of the set without the type if it was in it,
    with it otherwise. *)
Definition toggleEdgeType (type : string) (prev : gset string) : gset string :=
  if decide (type ∈ prev) then prev ∖ {[type]} else prev ∪ {[type]}.

(** [filteredEdges]: the edges whose type is selected. *)
Definition filteredEdges (edges : list GraphEdge) (selected : gset string)
    : list GraphEdge :=
  List.filter (fun e => bool_decide (Type_ e ∈ selected)) edges.

Section Links.

Context {Priority : Type}.

(** [new Map(nodes.map(n => [n.id, n]))]: a later node replaces an earlier
    one with the same id. *)
Definition nodeMap (nodes : list (GraphNode Priority))
    : gmap string (GraphNode Priority) :=
  fold_left (fun m n => <[ID n := n]> m) nodes ∅.

(** A link of the simulation. *)
Record SimLink : Type := mkLink {
  source : GraphNode Priority;
  target : GraphNode Priority;
  link_type : EdgeType
}.

(** [links]: the filtered edges with both ends in [nodeMap], each turned
    into a link between the two nodes found there (the [filter] and the
    [map] of the source in one pass). *)
Definition links (nodes : list (GraphNode Priority)) (edges : list GraphEdge)
    (selected : gset string) : list SimLink :=
  let m := nodeMap nodes in
  omap (fun e =>
          match m !! From e, m !! To e with
          | Some s, Some t => Some {| source := s; target := t; link_type := Type_ e |}
          | _, _ => None
          end)
       (filteredEdges edges selected).

(** [edgeTypesInGraph]: the types of the edges, each once, in order of
    first appearance. *)
Fixpoint distinct (seen : gset string) (types : list string) : list string :=
  match types with
  | [] => []
  | t :: rest =>
      if decide (t ∈ seen) then distinct seen rest
      else t :: distinct ({[t]} ∪ seen) rest
  end.

Definition edgeTypesInGraph (edges : list GraphEdge) : list string :=
  distinct ∅ (Type_ <$> edges).

End Links.

End Web.

(** * Properties *)

(** ** Properties of package model *)

Module ModelFacts.
Import Model.

Lemma int_wrap_small (z : Z) : (MinInt <= z <= MaxInt)%Z -> int_wrap z = z.
Proof.
  unfold MinInt, MaxInt, int_wrap. intros Hz.
  rewrite Z.mod_small; lia.
Qed.

Lemma int_incr_wrap (z : Z) : int_incr (int_wrap z) = int_wrap (z + 1).
Proof.
  unfold int_incr, int_wrap.
  replace ((z + 2 ^ 63) mod 2 ^ 64 - 2 ^ 63 + 1 + 2 ^ 63)%Z
    with ((z + 2 ^ 63) mod 2 ^ 64 + 1)%Z by lia.
  rewrite Zplus_mod_idemp_l. f_equal. f_equal. lia.
Qed.

Lemma len_snoc {A : Type} (l : list A) (x : A) : len (l ++ [x]) = (len l + 1)%Z.
Proof. unfold len. rewrite length_app. simpl. lia. Qed.

Lemma len_nonneg {A : Type} (l : list A) : (0 <= len l)%Z.
Proof. unfold len. lia. Qed.

Section GraphFacts.

Context {Priority : Type}.
Implicit Types (g : Graph Priority) (cs : list (insertion Priority)).

(** The tallies are the lengths, up to the width of [int]. *)
Definition tallies_track g : Prop :=
  NodeCount (Stats g) = int_wrap (len (Nodes g)) /\
  EdgeCount (Stats g) = int_wrap (len (Edges g)).

Lemma tallies_track_new : tallies_track (@NewGraph Priority).
Proof. split; reflexivity. Qed.

Lemma tallies_track_call g c : tallies_track g -> tallies_track (call g c).
Proof.
  intros [Hn He]. destruct c as [node | edge]; split; simpl.
  - rewrite Hn, int_incr_wrap, len_snoc. reflexivity.
  - exact He.
  - exact Hn.
  - rewrite He, int_incr_wrap, len_snoc. reflexivity.
Qed.

Lemma tallies_track_calls cs g : tallies_track g -> tallies_track (calls g cs).
Proof.
  unfold calls. revert g.
  induction cs as [| c cs IH]; intros g Hg; simpl.
  - exact Hg.
  - apply IH, tallies_track_call, Hg.
Qed.

(** C9. After any sequence of [AddNode] and [AddEdge] calls on a new
    graph (the two slices being shorter than the largest [int], as every Go
    slice is), [len(Nodes)] equals [Stats.NodeCount] and [len(Edges)]
    equals [Stats.EdgeCount]; a further [AddNode] appends exactly its node,
    leaves the edges and the edge tally alone and moves the node tally up by
    one, and a further [AddEdge] does the same on the edge side. *)
Theorem insertions_keep_tallies cs :
  let g := calls NewGraph cs in
  (len (Nodes g) < MaxInt)%Z -> (len (Edges g) < MaxInt)%Z ->
  (len (Nodes g) = NodeCount (Stats g) /\ len (Edges g) = EdgeCount (Stats g))
  /\ (forall node,
        Nodes (AddNode g node) = (Nodes g ++ [node])%list
        /\ Edges (AddNode g node) = Edges g
        /\ NodeCount (Stats (AddNode g node)) = (NodeCount (Stats g) + 1)%Z
        /\ EdgeCount (Stats (AddNode g node)) = EdgeCount (Stats g))
  /\ (forall edge,
        Edges (AddEdge g edge) = (Edges g ++ [edge])%list
        /\ Nodes (AddEdge g edge) = Nodes g
        /\ EdgeCount (Stats (AddEdge g edge)) = (EdgeCount (Stats g) + 1)%Z
        /\ NodeCount (Stats (AddEdge g edge)) = NodeCount (Stats g)).
Proof.
  intros g Hn He.
  destruct (tallies_track_calls cs NewGraph tallies_track_new) as [Tn Te].
  fold g in Tn, Te.
  pose proof (len_nonneg (Nodes g)) as Pn.
  pose proof (len_nonneg (Edges g)) as Pe.
  assert (Nn : NodeCount (Stats g) = len (Nodes g)).
  { rewrite Tn. apply int_wrap_small. unfold MinInt, MaxInt in *. lia. }
  assert (Ne : EdgeCount (Stats g) = len (Edges g)).
  { rewrite Te. apply int_wrap_small. unfold MinInt, MaxInt in *. lia. }
  split; [split; congruence |].
  split; intros x; simpl; repeat split; unfold int_incr.
  - rewrite Nn. apply int_wrap_small. unfold MinInt, MaxInt in *. lia.
  - rewrite Ne. apply int_wrap_small. unfold MinInt, MaxInt in *. lia.
Qed.

End GraphFacts.

(** The theorem at a graph built by three calls. *)
Lemma insertions_keep_tallies_witness :
  let n1 := mkNode "gv-1" "first" StatusPending 1%Z in
  let n2 := mkNode "gv-2" "second" StatusDone 2%Z in
  let e := mkEdge "gv-2" "gv-1" EdgeTypeBlocks in
  let g := calls NewGraph [CallAddNode n1; CallAddEdge e; CallAddNode n2] in
  len (Nodes g) = 2%Z /\ NodeCount (Stats g) = 2%Z /\
  len (Edges g) = 1%Z /\ EdgeCount (Stats g) = 1%Z.
Proof.
  intros n1 n2 e g.
  destruct (insertions_keep_tallies
              [CallAddNode n1; CallAddEdge e; CallAddNode n2])
    as [[Hn He] _].
  - reflexivity.
  - reflexivity.
  - fold g in Hn, He. rewrite <- Hn, <- He. repeat split; reflexivity.
Defined.

(** *** ToDOT and double quotes *)

(** Every double quote of a label comes right after a backslash. *)
Lemma label_of_escapes_quotes (title : string) (prev : ascii) :
  quotes_escaped prev (label_of title) = true.
Proof.
  revert prev. induction title as [| c rest IH]; intros prev; [reflexivity |].
  unfold label_of in *. simpl.
  destruct (Ascii.eqb_spec c dquote) as [-> | Hc].
  - simpl. apply IH.
  - simpl. apply Ascii.eqb_neq in Hc. rewrite Hc. apply IH.
Qed.

Lemma label_of_quote (t : string) :
  label_of (String dquote t) = String backslash (String dquote (label_of t)).
Proof. reflexivity. Qed.

Lemma label_of_other (c : ascii) (t : string) :
  Ascii.eqb c dquote = false -> label_of (String c t) = String c (label_of t).
Proof. intros Hc. unfold label_of. simpl. rewrite Hc. reflexivity. Qed.

Lemma dot_qstring_escaped_quote (s : string) :
  dot_qstring (String backslash (String dquote s)) =
  prod_map (String dquote) id <$> dot_qstring s.
Proof. reflexivity. Qed.

Lemma dot_qstring_plain (c : ascii) (s : string) :
  Ascii.eqb c dquote = false -> Ascii.eqb c backslash = false ->
  dot_qstring (String c s) = prod_map (String c) id <$> dot_qstring s.
Proof. intros Hq Hb. simpl. rewrite Hq, Hb. reflexivity. Qed.

(** For a title without backslashes the escaping does its job: DOT reads
    the title back from the label, up to the label's own closing quote. *)
Lemma dot_qstring_label (title rest : string) :
  backslash_free title = true ->
  dot_qstring (label_of title +:+ dq +:+ rest) = Some (title, rest).
Proof.
  induction title as [| c t IH]; intros Hfree; [reflexivity |].
  simpl in Hfree. apply andb_prop in Hfree as [Hc Ht].
  apply negb_true_iff in Hc.
  destruct (Ascii.eqb_spec c dquote) as [-> | Hq].
  - rewrite label_of_quote.
    change (dot_qstring
              (String backslash (String dquote (label_of t +:+ dq +:+ rest))) =
            Some (String dquote t, rest)).
    rewrite dot_qstring_escaped_quote, (IH Ht). reflexivity.
  - apply Ascii.eqb_neq in Hq. rewrite (label_of_other _ _ Hq).
    change (dot_qstring (String c (label_of t +:+ dq +:+ rest)) =
            Some (String c t, rest)).
    rewrite (dot_qstring_plain _ _ Hq Hc), (IH Ht). reflexivity.
Qed.

(** C8, at a title made of a double quote followed by a backslash.  The
    quote is escaped, but the title's own backslash then escapes the quote
    that was meant to close the label: DOT reads the label as two quotes
    followed by the text up to the opening quote of the fill colour, and
    the colour is left outside any string. *)
Theorem ToDOT_label_runs_past_its_quote :
  let title := dq +:+ "\" in
  let g := AddNode NewGraph (mkNode "gv-1" title StatusDone 1%Z) in
  label_of title = "\" +:+ dq +:+ "\"
  /\ ToDOT g =
       "digraph dependencies {" +:+ nl +:+
       "  rankdir=LR;" +:+ nl +:+
       "  node [shape=box, style=rounded];" +:+ nl +:+ nl +:+
       "  " +:+ dq +:+ "gv-1" +:+ dq +:+ " [label=" +:+ dq +:+
         "\" +:+ dq +:+ "\" +:+ dq +:+
         ", fillcolor=" +:+ dq +:+ "#22c55e" +:+ dq +:+
         ", style=" +:+ dq +:+ "filled,rounded" +:+ dq +:+ "];" +:+ nl +:+
       nl +:+ "}" +:+ nl
  /\ dot_qstring (after_label_open (label_of title) "#22c55e") =
       Some (dq +:+ dq +:+ ", fillcolor=",
             "#22c55e" +:+ dq +:+ ", style=" +:+ dq +:+ "filled,rounded" +:+
             dq +:+ "];" +:+ nl).
Proof. repeat split. Qed.

(** The node identifier goes between quotes as it is: at an identifier
    holding a double quote, DOT closes the string inside the identifier. *)
Example ToDOT_id_not_escaped :
  let node := mkNode ("gv" +:+ dq +:+ "1") "title" StatusDone 1%Z in
  exists rest,
    node_line node = "  " +:+ dq +:+ rest /\
    dot_qstring rest =
      Some ("gv", "1" +:+ dq +:+ " [label=" +:+ dq +:+
                  after_label_open "title" "#22c55e").
Proof. eexists. split; reflexivity. Qed.

(** *** ParseEdgeType *)

Lemma ParseEdgeType_range (s : string) : ParseEdgeType s ∈ edge_types.
Proof.
  unfold ParseEdgeType, edge_types.
  repeat match goal with
         | |- context [String.eqb s ?x] => destruct (String.eqb s x)
         end;
    repeat first [apply list_elem_of_here | apply list_elem_of_further].
Qed.

Lemma ParseEdgeType_fixes (t : EdgeType) :
  t ∈ edge_types -> ParseEdgeType t = t.
Proof.
  unfold edge_types. intros Hin.
  repeat (apply elem_of_cons in Hin as [-> | Hin]; [reflexivity |]).
  inversion Hin.
Qed.

(** X1. [ParseEdgeType] maps every string to one of the fourteen edge type
    constants, leaves each of the fourteen as it is, sends every other
    string to "unknown", and parsing its own result changes nothing. *)
Theorem ParseEdgeType_normalizes (s : string) :
  ParseEdgeType s ∈ edge_types
  /\ ParseEdgeType (ParseEdgeType s) = ParseEdgeType s
  /\ (s ∈ edge_types <-> ParseEdgeType s = s)
  /\ (s ∉ edge_types -> ParseEdgeType s = EdgeTypeUnknown).
Proof.
  split; [apply ParseEdgeType_range |].
  split; [apply ParseEdgeType_fixes, ParseEdgeType_range |].
  split.
  - split; [apply ParseEdgeType_fixes |].
    intros <-. apply ParseEdgeType_range.
  - intros Hnot.
    cbv delta [edge_types EdgeTypeBlocks EdgeTypeBlockedBy EdgeTypeParent
               EdgeTypeChild EdgeTypeWaitsFor EdgeTypeWaitedBy
               EdgeTypeConditional EdgeTypeRelates EdgeTypeDuplicates
               EdgeTypeMentions EdgeTypeDerivedFrom EdgeTypeSupersedes
               EdgeTypeImplements EdgeTypeUnknown] in Hnot.
    repeat (apply not_elem_of_cons in Hnot as [? Hnot]).
    unfold ParseEdgeType.
    repeat match goal with
           | Hne : s <> _ |- _ =>
               apply String.eqb_neq in Hne; try rewrite Hne; clear Hne
           end.
    reflexivity.
Qed.

(** *** The layout of the DOT text *)

Lemma append_assoc (a b c : string) : (a +:+ b) +:+ c = a +:+ b +:+ c.
Proof.
  induction a as [| x a IH]; [reflexivity |].
  change (String x ((a +:+ b) +:+ c) = String x (a +:+ b +:+ c)).
  f_equal. exact IH.
Qed.

Lemma append_empty_r (a : string) : a +:+ EmptyString = a.
Proof.
  induction a as [| x a IH]; [reflexivity |].
  change (String x (a +:+ EmptyString) = String x a). f_equal. exact IH.
Qed.

(** Lines written one after the other. *)
Definition lines_of (lines : list string) : string :=
  fold_right String.append EmptyString lines.

Lemma fold_left_writes {A : Type} (line : A -> string) (l : list A) (b : string) :
  fold_left (fun b x => b +:+ line x) l b = b +:+ lines_of (line <$> l).
Proof.
  revert b. induction l as [| x l IH]; intros b.
  - cbn. rewrite append_empty_r. reflexivity.
  - cbn [fold_left]. rewrite IH. cbn. rewrite append_assoc. reflexivity.
Qed.

Lemma lines_of_snoc (lines : list string) (x : string) :
  lines_of (lines ++ [x]) = lines_of lines +:+ x.
Proof.
  induction lines as [| y lines IH]; cbn.
  - rewrite append_empty_r. reflexivity.
  - unfold lines_of in IH. rewrite IH, append_assoc. reflexivity.
Qed.

(** The three lines every DOT text starts with, and the blank line after
    them. *)
Definition dot_preamble : string :=
  "digraph dependencies {" +:+ nl +:+ "  rankdir=LR;" +:+ nl +:+
  "  node [shape=box, style=rounded];" +:+ nl +:+ nl.

Section DotLayout.

Context {Priority : Type}.
Implicit Types (g : Graph Priority).

(** X2. The DOT text of a graph is the fixed preamble, one line per node
    in insertion order, an empty line, one line per edge in insertion
    order and the closing brace; the stats play no part in it.  So the text
    of a new graph is the preamble, an empty line and the brace, [AddEdge]
    puts its line right before the closing brace, and [AddNode] puts its
    line right after the node lines. *)
Theorem ToDOT_layout g :
  ToDOT g =
    dot_preamble +:+ lines_of (node_line <$> Nodes g) +:+ nl +:+
    lines_of (edge_line <$> Edges g) +:+ "}" +:+ nl
  /\ (forall edge,
        ToDOT (AddEdge g edge) =
          dot_preamble +:+ lines_of (node_line <$> Nodes g) +:+ nl +:+
          lines_of (edge_line <$> Edges g) +:+ edge_line edge +:+ "}" +:+ nl)
  /\ (forall node,
        ToDOT (AddNode g node) =
          dot_preamble +:+ lines_of (node_line <$> Nodes g) +:+
          node_line node +:+ nl +:+
          lines_of (edge_line <$> Edges g) +:+ "}" +:+ nl).
Proof.
  assert (Hlayout : forall g',
             ToDOT g' =
               dot_preamble +:+ lines_of (node_line <$> Nodes g') +:+ nl +:+
               lines_of (edge_line <$> Edges g') +:+ "}" +:+ nl).
  { intros g'. unfold ToDOT. rewrite !fold_left_writes.
    unfold dot_preamble. rewrite !append_assoc. reflexivity. }
  split; [apply Hlayout |]. split.
  - intros edge. rewrite Hlayout. cbn [Nodes Edges AddEdge].
    rewrite fmap_app.
    change (edge_line <$> [edge]) with [edge_line edge].
    rewrite lines_of_snoc, !append_assoc. reflexivity.
  - intros node. rewrite Hlayout. cbn [Nodes Edges AddNode].
    rewrite fmap_app.
    change (node_line <$> [node]) with [node_line node].
    rewrite lines_of_snoc, !append_assoc. reflexivity.
Qed.

End DotLayout.

(** *** Reading a node's line back *)

(** A text without double quote and backslash reads back as itself, up to
    the closing quote. *)
Lemma dot_qstring_plain_text (text rest : string) :
  quote_free text = true -> backslash_free text = true ->
  dot_qstring (text +:+ dq +:+ rest) = Some (text, rest).
Proof.
  induction text as [| c t IH]; intros Hq Hb; [reflexivity |].
  cbn [quote_free backslash_free] in Hq, Hb.
  apply andb_prop in Hq as [Hc Hq]. apply andb_prop in Hb as [Hc' Hb].
  apply negb_true_iff in Hc, Hc'.
  change (dot_qstring (String c (t +:+ dq +:+ rest)) = Some (String c t, rest)).
  rewrite (dot_qstring_plain _ _ Hc Hc'), (IH Hq Hb). reflexivity.
Qed.

(** The fill colour [ToDOT] gives a status: the table's, or gray. *)
Definition fill_color (status : Status) : string :=
  let color := index_string statusColors status in
  if String.eqb color EmptyString then "#6b7280" else color.

(** X3. For a node whose identifier holds no double quote and no backslash
    and whose title holds no backslash, DOT reads the node's line as
    written: the first quoted string is the identifier, and the quoted
    string after [label=] is the title, double quotes included, followed by
    the fill colour attribute. *)
Theorem node_line_reads_back {Priority : Type} (node : GraphNode Priority) :
  quote_free (ID node) = true -> backslash_free (ID node) = true ->
  backslash_free (Title node) = true ->
  exists after_id after_label,
    node_line node = "  " +:+ dq +:+ after_id
    /\ dot_qstring after_id = Some (ID node, " [label=" +:+ dq +:+ after_label)
    /\ dot_qstring after_label =
         Some (Title node,
               ", fillcolor=" +:+ dq +:+ fill_color (Status_ node) +:+ dq +:+
               ", style=" +:+ dq +:+ "filled,rounded" +:+ dq +:+ "];" +:+ nl).
Proof.
  intros Hq Hb Ht.
  exists (ID node +:+ dq +:+ " [label=" +:+ dq +:+
          after_label_open (label_of (Title node)) (fill_color (Status_ node))),
         (after_label_open (label_of (Title node)) (fill_color (Status_ node))).
  split; [reflexivity |]. split.
  - apply dot_qstring_plain_text; assumption.
  - unfold after_label_open. apply dot_qstring_label, Ht.
Qed.

(** The theorem at a node whose title quotes a word. *)
Lemma node_line_reads_back_witness :
  let title := "Fix " +:+ dq +:+ "login" +:+ dq +:+ " page" in
  let node := mkNode "gv-7" title StatusInProgress 1%Z in
  exists after_id after_label,
    node_line node = "  " +:+ dq +:+ after_id
    /\ dot_qstring after_id = Some ("gv-7", " [label=" +:+ dq +:+ after_label)
    /\ dot_qstring after_label =
         Some (title,
               ", fillcolor=" +:+ dq +:+ "#eab308" +:+ dq +:+
               ", style=" +:+ dq +:+ "filled,rounded" +:+ dq +:+ "];" +:+ nl).
Proof.
  intros title node.
  apply (node_line_reads_back node); reflexivity.
Defined.

End ModelFacts.

(** ** Properties of the graph builder *)

Module BeadsFacts.
Import Model ModelFacts Beads.

(** A loop keeps what each of its iterations keeps. *)
Lemma fold_left_keeps {A B : Type} (P : A -> Prop) (f : A -> B -> A)
    (l : list B) (a : A) :
  P a -> (forall a' x, x ∈ l -> P a' -> P (f a' x)) -> P (fold_left f l a).
Proof.
  revert a. induction l as [| x l IH]; intros a Ha Hstep; simpl; [exact Ha |].
  apply IH.
  - apply Hstep; [left | exact Ha].
  - intros a' y Hy. apply Hstep. right. exact Hy.
Qed.

(** Iterations that change nothing can be left out of a loop. *)
Lemma fold_left_filter {A B : Type} (keep : B -> bool) (f : A -> B -> A)
    (l : list B) (a : A) :
  (forall a' x, keep x = false -> f a' x = a') ->
  fold_left f (List.filter keep l) a = fold_left f l a.
Proof.
  intros Hskip. revert a. induction l as [| x l IH]; intros a; simpl; [reflexivity |].
  destruct (keep x) eqn:Hx; simpl.
  - apply IH.
  - rewrite (Hskip a x Hx). apply IH.
Qed.

(** A loop over a list whose elements were replaced by equivalent ones. *)
Lemma fold_left_fmap_same {A B : Type} (h : B -> B) (f : A -> B -> A)
    (l : list B) (a : A) :
  (forall a' x, f a' (h x) = f a' x) ->
  fold_left f (h <$> l) a = fold_left f l a.
Proof.
  intros Hsame. revert a. induction l as [| x l IH]; intros a; [reflexivity |].
  cbn [fmap list_fmap fold_left]. rewrite Hsame. apply IH.
Qed.

Lemma index_bool_insert (m : gmap string bool) (k k' : string) :
  index_bool (<[k := true]> m) k' = true <-> k = k' \/ index_bool m k' = true.
Proof.
  unfold index_bool. destruct (decide (k = k')) as [-> | Hne].
  - rewrite lookup_insert_eq. simpl. tauto.
  - rewrite lookup_insert_ne by exact Hne. tauto.
Qed.

Lemma index_bool_empty (k : string) : index_bool ∅ k = false.
Proof. unfold index_bool. rewrite lookup_empty. reflexivity. Qed.

(** C7. A dependency type outside the names of the switch maps to the
    "blocks" edge type, and the builder then adds the edge, of type
    "blocks", exactly as it adds any other: to a known node and under a
    fresh key the dependency becomes the edge from the dependency to the
    issue.  The mapping is a total function: no input makes it fail. *)
Theorem unrecognized_dep_type_maps_to_blocks (depType : string) :
  depType ∉ recognized_dep_types ->
  mapDepTypeToEdgeType depType = EdgeTypeBlocks
  /\ forall (RawStatus RawPriority Priority : Type)
       (nodeMap : gmap string bool) (bi : BDIssue RawStatus RawPriority)
       (st : build Priority) (id : string),
       index_bool nodeMap id = true ->
       index_bool (edgeSet st)
         (Issue_ID bi +:+ "->" +:+ id +:+ ":" +:+ EdgeTypeBlocks) = false ->
       Edges (graph (add_dependency nodeMap bi st (mkDep id depType))) =
       (Edges (graph st) ++ [mkEdge id (Issue_ID bi) EdgeTypeBlocks])%list.
Proof.
  intros Hnot.
  assert (Hmap : mapDepTypeToEdgeType depType = EdgeTypeBlocks).
  { unfold recognized_dep_types in Hnot.
    repeat (apply not_elem_of_cons in Hnot as [? Hnot]).
    unfold mapDepTypeToEdgeType.
    repeat match goal with
           | Hne : depType <> _ |- _ =>
               apply String.eqb_neq in Hne; rewrite Hne; clear Hne
           end.
    reflexivity. }
  split; [exact Hmap |].
  intros RawStatus RawPriority Priority nodeMap bi st id Hnode Hfresh.
  unfold add_dependency. simpl. rewrite Hmap, Hnode, Hfresh. reflexivity.
Qed.

(** The theorem at "discovered-from", a name the switch does not list. *)
Lemma unrecognized_dep_type_maps_to_blocks_witness :
  mapDepTypeToEdgeType "discovered-from" = EdgeTypeBlocks.
Proof.
  apply (unrecognized_dep_type_maps_to_blocks "discovered-from").
  unfold recognized_dep_types.
  repeat (apply not_elem_of_cons; split; [discriminate |]).
  apply not_elem_of_nil.
Defined.

Section BuilderFacts.

Context {RawStatus RawPriority Priority error : Type}.
Variable mapStatus : RawStatus -> Status.
Variable mapPriority : RawPriority -> Priority.

Implicit Types (bi : BDIssue RawStatus RawPriority) (st : build Priority)
  (nodeMap : gmap string bool) (dep : BDDependency).

(** The node the first loop makes of an issue. *)
Definition node_of bi : GraphNode Priority :=
  {| ID := Issue_ID bi; Title := Issue_Title bi;
     Status_ := mapStatus (Issue_Status bi);
     Priority_ := mapPriority (Issue_Priority bi) |}.

Lemma graph_nodes_from (l : list (BDIssue RawStatus RawPriority))
    (g : Graph Priority) (m : gmap string bool) :
  let r := fold_left (add_issue_node mapStatus mapPriority) l (g, m) in
  Nodes (fst r) = (Nodes g ++ (node_of <$> l))%list
  /\ Edges (fst r) = Edges g
  /\ (tallies_track g -> tallies_track (fst r))
  /\ MaxDepth (Stats (fst r)) = MaxDepth (Stats g)
  /\ forall k, index_bool (snd r) k = true <->
               index_bool m k = true \/ k ∈ (Issue_ID <$> l).
Proof.
  revert g m. induction l as [| bi l IH]; intros g m; cbv zeta; cbn [fold_left].
  - cbn [fst snd fmap list_fmap]. rewrite app_nil_r.
    split; [reflexivity |]. split; [reflexivity |].
    split; [tauto |]. split; [reflexivity |].
    intros k. split; [tauto |].
    intros [Hk | Hk]; [exact Hk | inversion Hk].
  - change (add_issue_node mapStatus mapPriority (g, m) bi)
      with (AddNode g (node_of bi), <[Issue_ID bi := true]> m).
    destruct (IH (AddNode g (node_of bi)) (<[Issue_ID bi := true]> m))
      as (Hn & He & Ht & Hd & Hm).
    split.
    { rewrite Hn. cbn [Nodes AddNode]. rewrite <- app_assoc. reflexivity. }
    split; [rewrite He; reflexivity |].
    split.
    { intros Hg. apply Ht.
      apply (tallies_track_call g (CallAddNode (node_of bi))), Hg. }
    split; [rewrite Hd; reflexivity |].
    intros k. split.
    + intros Hk. apply Hm in Hk as [Hk | Hk].
      * apply index_bool_insert in Hk as [<- | Hk]; [right; left | left; exact Hk].
      * right. right. exact Hk.
    + intros Hk. apply Hm. destruct Hk as [Hk | Hk].
      * left. apply index_bool_insert. right. exact Hk.
      * apply elem_of_cons in Hk as [-> | Hk]; [| right; exact Hk].
        left. apply index_bool_insert. left. reflexivity.
Qed.

(** After the first loop: one node per issue, in order, no edge yet, and
    [nodeMap] holds exactly the issues' identifiers. *)
Lemma graph_nodes_spec (bdIssues : list (BDIssue RawStatus RawPriority)) :
  let r := graph_nodes mapStatus mapPriority bdIssues in
  Nodes (fst r) = node_of <$> bdIssues
  /\ Edges (fst r) = []
  /\ tallies_track (fst r)
  /\ MaxDepth (Stats (fst r)) = 0%Z
  /\ forall k, index_bool (snd r) k = true <-> k ∈ (Issue_ID <$> bdIssues).
Proof.
  destruct (graph_nodes_from bdIssues NewGraph ∅) as (Hn & He & Ht & Hd & Hm).
  unfold graph_nodes.
  split; [exact Hn |]. split; [exact He |].
  split; [apply Ht, tallies_track_new |]. split; [exact Hd |].
  intros k. split.
  - intros Hk. apply Hm in Hk as [Hk | Hk]; [| exact Hk].
    rewrite index_bool_empty in Hk. discriminate.
  - intros Hk. apply Hm. right. exact Hk.
Qed.

(** What the edge loops keep: the nodes, the tallies, and edges whose two
    ends are in [nodeMap]. *)
Definition edges_known nodeMap (edges : list GraphEdge) : Prop :=
  Forall (fun e => index_bool nodeMap (From e) = true
                   /\ index_bool nodeMap (To e) = true) edges.

Record kept nodeMap (nodes : list (GraphNode Priority)) st : Prop := {
  kept_nodes : Nodes (graph st) = nodes;
  kept_tallies : tallies_track (graph st);
  kept_depth : MaxDepth (Stats (graph st)) = 0%Z;
  kept_edges : edges_known nodeMap (Edges (graph st))
}.

Lemma kept_AddEdge nodeMap nodes st (e : GraphEdge) (keys : gmap string bool) :
  kept nodeMap nodes st ->
  index_bool nodeMap (From e) = true -> index_bool nodeMap (To e) = true ->
  kept nodeMap nodes {| graph := AddEdge (graph st) e; edgeSet := keys |}.
Proof.
  intros [Hn Ht Hd He] Hfrom Hto. split; simpl.
  - exact Hn.
  - apply (tallies_track_call (graph st) (CallAddEdge e)), Ht.
  - exact Hd.
  - apply Forall_app. split; [exact He |].
    apply Forall_cons. split; [split; assumption | apply Forall_nil; exact I].
Qed.

Lemma kept_add_dependency nodeMap nodes bi st dep :
  index_bool nodeMap (Issue_ID bi) = true ->
  kept nodeMap nodes st -> kept nodeMap nodes (add_dependency nodeMap bi st dep).
Proof.
  intros Hbi Hst. unfold add_dependency.
  destruct (index_bool nodeMap (Dep_ID dep)) eqn:Hdep; simpl; [| exact Hst].
  destruct (index_bool (edgeSet st) _); simpl; [exact Hst |].
  apply kept_AddEdge; assumption.
Qed.

Lemma kept_add_dependent nodeMap nodes bi st dep :
  index_bool nodeMap (Issue_ID bi) = true ->
  kept nodeMap nodes st -> kept nodeMap nodes (add_dependent nodeMap bi st dep).
Proof.
  intros Hbi Hst. unfold add_dependent.
  destruct (index_bool nodeMap (Dep_ID dep)) eqn:Hdep; simpl; [| exact Hst].
  destruct (index_bool (edgeSet st) _); simpl; [exact Hst |].
  apply kept_AddEdge; assumption.
Qed.

Lemma kept_add_blocker nodeMap nodes bi st (blockerID : string) :
  index_bool nodeMap (Issue_ID bi) = true ->
  kept nodeMap nodes st -> kept nodeMap nodes (add_blocker nodeMap bi st blockerID).
Proof.
  intros Hbi Hst. unfold add_blocker.
  destruct (index_bool nodeMap blockerID) eqn:Hb; simpl; [| exact Hst].
  destruct (index_bool (edgeSet st) _); simpl; [exact Hst |].
  apply kept_AddEdge; assumption.
Qed.

Lemma kept_add_blocked nodeMap nodes (bi : BDBlocked) st (blockerID : string) :
  kept nodeMap nodes st -> kept nodeMap nodes (add_blocked nodeMap bi st blockerID).
Proof.
  intros Hst. unfold add_blocked.
  destruct (index_bool nodeMap blockerID) eqn:Hb; simpl; [| exact Hst].
  destruct (index_bool nodeMap (Blocked_ID bi)) eqn:Hid; simpl; [| exact Hst].
  destruct (index_bool (edgeSet st) _); simpl; [exact Hst |].
  apply kept_AddEdge; assumption.
Qed.

Lemma kept_add_issue_edges nodeMap nodes bi st :
  index_bool nodeMap (Issue_ID bi) = true ->
  kept nodeMap nodes st -> kept nodeMap nodes (add_issue_edges nodeMap st bi).
Proof.
  intros Hbi Hst. unfold add_issue_edges.
  apply fold_left_keeps; [| intros; apply kept_add_blocker; assumption].
  apply fold_left_keeps; [| intros; apply kept_add_dependent; assumption].
  apply fold_left_keeps; [| intros; apply kept_add_dependency; assumption].
  exact Hst.
Qed.

Lemma kept_add_blocked_issue nodeMap nodes (bi : BDBlocked) st :
  kept nodeMap nodes st -> kept nodeMap nodes (add_blocked_issue nodeMap st bi).
Proof.
  intros Hst. unfold add_blocked_issue.
  apply fold_left_keeps; [exact Hst | intros; apply kept_add_blocked; assumption].
Qed.

(** The built graph: its nodes are the issues' nodes, its tallies track
    its slices, and every edge joins two identifiers of [nodeMap]. *)
Lemma build_graph_kept (bdIssues : list (BDIssue RawStatus RawPriority))
    (blockedOut : fetched error (list BDBlocked)) :
  let nodeMap := snd (graph_nodes mapStatus mapPriority bdIssues) in
  kept nodeMap (node_of <$> bdIssues)
    {| graph := build_graph mapStatus mapPriority bdIssues blockedOut;
       edgeSet := ∅ |}.
Proof.
  intros nodeMap.
  destruct (graph_nodes_spec bdIssues) as (Hn & He & Ht & Hd & Hm).
  unfold build_graph. fold nodeMap in Hm.
  destruct (graph_nodes mapStatus mapPriority bdIssues) as [g m] eqn:Hgm.
  simpl in *. subst nodeMap.
  set (st0 := {| graph := g; edgeSet := ∅ |}).
  assert (H0 : kept m (node_of <$> bdIssues) st0).
  { split; simpl; try assumption. rewrite He. apply Forall_nil. exact I. }
  assert (H1 : kept m (node_of <$> bdIssues)
                 (fold_left (add_issue_edges m) bdIssues st0)).
  { apply fold_left_keeps; [exact H0 |].
    intros st bi Hbi Hst. apply kept_add_issue_edges; [| exact Hst].
    apply Hm. apply list_elem_of_fmap_2. exact Hbi. }
  assert (H2 : kept m (node_of <$> bdIssues)
                 match blockedOut with
                 | Parsed blockedIssues =>
                     fold_left (add_blocked_issue m) blockedIssues
                       (fold_left (add_issue_edges m) bdIssues st0)
                 | _ => fold_left (add_issue_edges m) bdIssues st0
                 end).
  { destruct blockedOut as [err | err | blockedIssues]; try exact H1.
    apply fold_left_keeps; [exact H1 |].
    intros st bi _ Hst. apply kept_add_blocked_issue, Hst. }
  destruct H2 as [K1 K2 K3 K4]. split; simpl; assumption.
Qed.

(** C5. A relationship record with an endpoint outside the node set of the
    first loop changes nothing: the graph, its edge tally and the set of
    seen keys stay as they were, for each of the four sources (the blocked
    listing checks both of its endpoints).  Hence every edge of the built
    graph joins two of the graph's nodes, and such records never turn the
    result into an error. *)
Theorem dangling_records_leave_no_edge
    (bdIssues : list (BDIssue RawStatus RawPriority))
    (blockedOut : fetched error (list BDBlocked)) :
  let nodeMap := snd (graph_nodes mapStatus mapPriority bdIssues) in
  let g := build_graph mapStatus mapPriority bdIssues blockedOut in
  (forall id, index_bool nodeMap id = true <-> id ∈ (ID <$> Nodes g))
  /\ (forall bi st dep, index_bool nodeMap (Dep_ID dep) = false ->
        add_dependency nodeMap bi st dep = st)
  /\ (forall bi st dep, index_bool nodeMap (Dep_ID dep) = false ->
        add_dependent nodeMap bi st dep = st)
  /\ (forall bi st blockerID, index_bool nodeMap blockerID = false ->
        add_blocker nodeMap bi st blockerID = st)
  /\ (forall (bi : BDBlocked) st blockerID,
        index_bool nodeMap blockerID = false
        \/ index_bool nodeMap (Blocked_ID bi) = false ->
        add_blocked nodeMap bi st blockerID = st)
  /\ (forall e, e ∈ Edges g ->
        From e ∈ (ID <$> Nodes g) /\ To e ∈ (ID <$> Nodes g))
  /\ EdgeCount (Stats g) = int_wrap (len (Edges g))
  /\ CLIAdapter_Graph mapStatus mapPriority (Parsed bdIssues) blockedOut = inr g.
Proof.
  intros nodeMap g.
  destruct (build_graph_kept bdIssues blockedOut) as [Kn Kt Kd Ke].
  destruct (graph_nodes_spec bdIssues) as (_ & _ & _ & _ & Hm).
  simpl in Kn, Kt, Kd, Ke. fold nodeMap in Ke, Hm. fold g in Kn, Kt, Kd, Ke.
  assert (Hids : forall id, index_bool nodeMap id = true <-> id ∈ (ID <$> Nodes g)).
  { intros id. rewrite Kn, <- list_fmap_compose. apply Hm. }
  split; [exact Hids |].
  split; [intros bi st dep H; unfold add_dependency; rewrite H; reflexivity |].
  split; [intros bi st dep H; unfold add_dependent; rewrite H; reflexivity |].
  split; [intros bi st b H; unfold add_blocker; rewrite H; reflexivity |].
  split.
  { intros bi st b [H | H]; unfold add_blocked; rewrite H; simpl;
      [reflexivity | rewrite andb_false_r; reflexivity]. }
  split.
  { intros e He. unfold edges_known in Ke.
    rewrite Forall_forall in Ke. destruct (Ke e He) as [Hf Ht].
    split; apply Hids; assumption. }
  split; [apply Kt | reflexivity].
Qed.

(** Leaving the dangling records out of the input gives the same graph. *)
Definition prune_issue nodeMap bi : BDIssue RawStatus RawPriority :=
  {| Issue_ID := Issue_ID bi; Issue_Title := Issue_Title bi;
     Issue_Status := Issue_Status bi; Issue_Priority := Issue_Priority bi;
     Dependencies :=
       List.filter (fun dep => index_bool nodeMap (Dep_ID dep)) (Dependencies bi);
     Dependents :=
       List.filter (fun dep => index_bool nodeMap (Dep_ID dep)) (Dependents bi);
     BlockedBy := List.filter (index_bool nodeMap) (BlockedBy bi) |}.

Lemma add_issue_edges_prune nodeMap st bi :
  add_issue_edges nodeMap st (prune_issue nodeMap bi) =
  add_issue_edges nodeMap st bi.
Proof.
  assert (E1 : add_dependency (Priority := Priority) nodeMap
                 (prune_issue nodeMap bi) = add_dependency nodeMap bi)
    by reflexivity.
  assert (E2 : add_dependent (Priority := Priority) nodeMap
                 (prune_issue nodeMap bi) = add_dependent nodeMap bi)
    by reflexivity.
  assert (E3 : add_blocker (Priority := Priority) nodeMap
                 (prune_issue nodeMap bi) = add_blocker nodeMap bi)
    by reflexivity.
  unfold add_issue_edges. rewrite E1, E2, E3.
  unfold prune_issue. cbn [Dependencies Dependents BlockedBy].
  rewrite !fold_left_filter; [reflexivity | | |];
    intros st' x Hx; cbv beta in Hx;
    cbv beta zeta delta [add_blocker add_dependent add_dependency];
    rewrite Hx; reflexivity.
Qed.

(** X5. Leaving out of every issue the dependency, dependent and
    blocked_by entries that name an identifier outside the node set does
    not change the built graph: such entries contribute nothing, whatever
    comes before or after them. *)
Corollary build_graph_prune (bdIssues : list (BDIssue RawStatus RawPriority))
    (blockedOut : fetched error (list BDBlocked)) :
  let nodeMap := snd (graph_nodes mapStatus mapPriority bdIssues) in
  build_graph mapStatus mapPriority (prune_issue nodeMap <$> bdIssues) blockedOut =
  build_graph mapStatus mapPriority bdIssues blockedOut.
Proof.
  intros nodeMap. unfold build_graph.
  assert (E : graph_nodes mapStatus mapPriority (prune_issue nodeMap <$> bdIssues) =
              graph_nodes mapStatus mapPriority bdIssues).
  { unfold graph_nodes. apply fold_left_fmap_same. reflexivity. }
  rewrite E. subst nodeMap.
  destruct (graph_nodes mapStatus mapPriority bdIssues) as [g m]. cbn [snd].
  rewrite fold_left_fmap_same; [reflexivity |].
  intros st bi. apply add_issue_edges_prune.
Qed.

(** Where an edge of the dependency lists points.  A forward entry adds, if
    anything, the edge from the dependency to the issue; a reverse entry
    adds, if anything, the edge from the issue to the dependent. *)
Lemma add_dependency_edges nodeMap bi st dep :
  let edgeType := mapDepTypeToEdgeType (DepType dep) in
  let edgeKey := Issue_ID bi +:+ "->" +:+ Dep_ID dep +:+ ":" +:+ edgeType in
  Edges (graph (add_dependency nodeMap bi st dep)) =
  (Edges (graph st) ++
   if index_bool nodeMap (Dep_ID dep) && negb (index_bool (edgeSet st) edgeKey)
   then [mkEdge (Dep_ID dep) (Issue_ID bi) edgeType] else [])%list.
Proof.
  intros edgeType edgeKey. unfold add_dependency. fold edgeType. fold edgeKey.
  destruct (index_bool nodeMap (Dep_ID dep) && negb (index_bool (edgeSet st) edgeKey)).
  - reflexivity.
  - rewrite app_nil_r. reflexivity.
Qed.

Lemma add_dependent_edges nodeMap bi st dep :
  let edgeType := mapDepTypeToEdgeType (DepType dep) in
  let edgeKey := Dep_ID dep +:+ "->" +:+ Issue_ID bi +:+ ":" +:+ edgeType in
  Edges (graph (add_dependent nodeMap bi st dep)) =
  (Edges (graph st) ++
   if index_bool nodeMap (Dep_ID dep) && negb (index_bool (edgeSet st) edgeKey)
   then [mkEdge (Issue_ID bi) (Dep_ID dep) edgeType] else [])%list.
Proof.
  intros edgeType edgeKey. unfold add_dependent. fold edgeType. fold edgeKey.
  destruct (index_bool nodeMap (Dep_ID dep) && negb (index_bool (edgeSet st) edgeKey)).
  - reflexivity.
  - rewrite app_nil_r. reflexivity.
Qed.

(** *** Where the set of seen keys does prevent duplicates *)

(** The key under which the two dependency loops record an edge. *)
Definition dependency_key (e : GraphEdge) : string :=
  To e +:+ "->" +:+ From e +:+ ":" +:+ Type_ e.

(** No edge twice, and every edge recorded under its dependency key. *)
Definition recorded st : Prop :=
  NoDup (Edges (graph st))
  /\ forall e, e ∈ Edges (graph st) ->
               index_bool (edgeSet st) (dependency_key e) = true.

Lemma recorded_AddEdge st (e : GraphEdge) :
  recorded st ->
  index_bool (edgeSet st) (dependency_key e) = false ->
  recorded {| graph := AddEdge (graph st) e;
              edgeSet := <[dependency_key e := true]> (edgeSet st) |}.
Proof.
  intros [Hnd Hrec] Hnew. split; cbn [graph edgeSet Edges AddEdge].
  - apply NoDup_app. split; [exact Hnd |]. split.
    + intros x Hx Hxe. apply list_elem_of_singleton in Hxe as ->.
      rewrite (Hrec e Hx) in Hnew. discriminate.
    + apply NoDup_singleton.
  - intros x Hx. apply index_bool_insert.
    apply elem_of_app in Hx as [Hx | Hx].
    + right. apply Hrec, Hx.
    + apply list_elem_of_singleton in Hx as ->. left. reflexivity.
Qed.

Lemma recorded_add_dependency nodeMap bi st dep :
  recorded st -> recorded (add_dependency nodeMap bi st dep).
Proof.
  intros Hst. unfold add_dependency.
  destruct (index_bool nodeMap (Dep_ID dep)); cbn [andb]; [| exact Hst].
  destruct (index_bool (edgeSet st) _) eqn:Hkey; cbn [negb]; [exact Hst |].
  apply (recorded_AddEdge st
           (mkEdge (Dep_ID dep) (Issue_ID bi) (mapDepTypeToEdgeType (DepType dep)))
           Hst Hkey).
Qed.

Lemma recorded_add_dependent nodeMap bi st dep :
  recorded st -> recorded (add_dependent nodeMap bi st dep).
Proof.
  intros Hst. unfold add_dependent.
  destruct (index_bool nodeMap (Dep_ID dep)); cbn [andb]; [| exact Hst].
  destruct (index_bool (edgeSet st) _) eqn:Hkey; cbn [negb]; [exact Hst |].
  apply (recorded_AddEdge st
           (mkEdge (Issue_ID bi) (Dep_ID dep) (mapDepTypeToEdgeType (DepType dep)))
           Hst Hkey).
Qed.

(** With the forward and reverse dependency lists as the only source, no
    edge occurs twice: both loops record an edge under the same key. *)
Lemma dependency_lists_alone_NoDup
    (bdIssues : list (BDIssue RawStatus RawPriority)) (err : error) :
  Forall (fun bi => BlockedBy bi = []) bdIssues ->
  NoDup (Edges (build_graph mapStatus mapPriority bdIssues (ExecFailed err))).
Proof.
  intros Hnone. unfold build_graph.
  destruct (graph_nodes_spec bdIssues) as (_ & He & _).
  destruct (graph_nodes mapStatus mapPriority bdIssues) as [g m].
  cbn [fst] in He.
  assert (H0 : recorded {| graph := g; edgeSet := ∅ |}).
  { split; cbn [graph edgeSet]; rewrite He; [apply NoDup_nil; exact I |].
    intros e Hin. inversion Hin. }
  apply (fold_left_keeps recorded (add_issue_edges m) bdIssues _ H0).
  intros st bi Hbi Hst. unfold add_issue_edges.
  rewrite Forall_forall in Hnone. rewrite (Hnone bi Hbi). cbn [fold_left].
  apply fold_left_keeps; [| intros; apply recorded_add_dependent; assumption].
  apply fold_left_keeps; [| intros; apply recorded_add_dependency; assumption].
  exact Hst.
Qed.

End BuilderFacts.

(** *** The builder on concrete listings *)

(** Stand-ins for the two mappings declared elsewhere: raw statuses are
    taken to be statuses already, and priorities to be numbers. *)
Definition plain_status (s : string) : Status := s.
Definition plain_priority (p : Z) : Z := p.

(** C1, at an issue A with a forward dependency of type "blocks" on B,
    while the blocked listing reports A as blocked by B.  The forward entry
    records the key A->B:blocks for the edge from B to A; the blocked
    listing looks up B->A:blocks, finds it absent and adds the edge from B
    to A a second time. *)
Theorem Graph_repeats_an_edge :
  let A := mkIssue "A" "Ship release" "blocked" 1%Z [mkDep "B" "blocks"] [] [] in
  let B := mkIssue "B" "Fix build" "open" 2%Z [] [] [] in
  let g := build_graph (error := string) plain_status plain_priority [A; B]
             (Parsed [mkBlocked "A" ["B"]]) in
  Edges g = [mkEdge "B" "A" EdgeTypeBlocks; mkEdge "B" "A" EdgeTypeBlocks]
  /\ EdgeCount (Stats g) = 2%Z
  /\ ~ NoDup (Edges g).
Proof.
  intros A B g.
  assert (E : Edges g = [mkEdge "B" "A" EdgeTypeBlocks; mkEdge "B" "A" EdgeTypeBlocks])
    by (vm_compute; reflexivity).
  split; [exact E |]. split; [vm_compute; reflexivity |].
  rewrite E. intros Hnd. apply NoDup_cons in Hnd as [Hnotin _].
  apply Hnotin. left.
Qed.

(** The same happens within the issue list alone, when A names B both as a
    forward dependency of type "blocks" and in its blocked_by list. *)
Example Graph_blocked_by_repeats_edge :
  let A := mkIssue "A" "Ship release" "blocked" 1%Z [mkDep "B" "blocks"] [] ["B"] in
  let B := mkIssue "B" "Fix build" "open" 2%Z [] [] [] in
  let g := build_graph (error := string) plain_status plain_priority [A; B]
             (Parsed []) in
  Edges g = [mkEdge "B" "A" EdgeTypeBlocks; mkEdge "B" "A" EdgeTypeBlocks].
Proof. vm_compute. reflexivity. Qed.

(** The same slip the other way round: once B's blocked_by entry has
    recorded A->B:blocks for the edge from A to B, the forward dependency of
    A on B finds its own key taken, and the edge from B to A is never
    added. *)
Example Graph_drops_a_distinct_edge :
  let B := mkIssue "B" "Fix build" "open" 2%Z [] [] ["A"] in
  let A := mkIssue "A" "Ship release" "open" 1%Z [mkDep "B" "blocks"] [] [] in
  let g := build_graph (error := string) plain_status plain_priority [B; A]
             (Parsed []) in
  Edges g = [mkEdge "A" "B" EdgeTypeBlocks].
Proof. vm_compute. reflexivity. Qed.

(** C6, at the issues of its scenario: A, blocked, with the forward
    dependency on B of type "blocks", and B, done.  Whether A's entry
    produces the edge from B to A, and how often the graph holds that edge,
    depends on what else reports a blocking between the two.  When the
    blocked listing reports A as blocked by B, the graph encodes with the
    edge from B to A twice and edge_count 2.  When B is listed first and
    names A in its blocked_by list, A's forward entry finds its key
    A->B:blocks recorded for the edge from A to B and produces no edge: the
    edge from the dependency B to the issue A is missing from the graph.
    With neither, the edge is there once, and the stats object has the
    three members node_count, edge_count and max_depth. *)
Theorem forward_dependency_edge_doubled_or_lost :
  let A := mkIssue "A" "Ship release" "blocked" 1%Z [mkDep "B" "blocks"] [] [] in
  let B := mkIssue "B" "Fix build" "done" 2%Z [] [] [] in
  let B_blocked_by_A := mkIssue "B" "Fix build" "done" 2%Z [] [] ["A"] in
  let built blockedOut bdIssues :=
    build_graph (error := string) plain_status plain_priority bdIssues
      blockedOut in
  let nodeA := JObject [("id", JString "A"); ("title", JString "Ship release");
                        ("status", JString "blocked"); ("priority", JNumber 1)] in
  let nodeB := JObject [("id", JString "B"); ("title", JString "Fix build");
                        ("status", JString "done"); ("priority", JNumber 2)] in
  let from_B_to_A := JObject [("from", JString "B"); ("to", JString "A");
                              ("type", JString "blocks")] in
  Graph_json JNumber (built (Parsed [mkBlocked "A" ["B"]]) [A; B]) =
    JObject [("nodes", JArray [nodeA; nodeB]);
             ("edges", JArray [from_B_to_A; from_B_to_A]);
             ("stats", JObject [("node_count", JNumber 2);
                                ("edge_count", JNumber 2);
                                ("max_depth", JNumber 0)])]
  /\ (Nodes (built (Parsed []) [B_blocked_by_A; A]) =
        [mkNode "B" "Fix build" "done" 2%Z;
         mkNode "A" "Ship release" "blocked" 1%Z]
      /\ Edges (built (Parsed []) [B_blocked_by_A; A]) =
           [mkEdge "A" "B" EdgeTypeBlocks]
      /\ mkEdge "B" "A" EdgeTypeBlocks ∉
           Edges (built (Parsed []) [B_blocked_by_A; A]))
  /\ Graph_json JNumber (built (Parsed []) [A; B]) =
       JObject [("nodes", JArray [nodeA; nodeB]);
                ("edges", JArray [from_B_to_A]);
                ("stats", JObject [("node_count", JNumber 2);
                                   ("edge_count", JNumber 1);
                                   ("max_depth", JNumber 0)])].
Proof.
  intros A B B_blocked_by_A built nodeA nodeB from_B_to_A.
  split; [vm_compute; reflexivity |]. split; [| vm_compute; reflexivity].
  assert (E : Edges (built (Parsed []) [B_blocked_by_A; A]) =
              [mkEdge "A" "B" EdgeTypeBlocks]) by (vm_compute; reflexivity).
  split; [vm_compute; reflexivity |]. split; [exact E |].
  rewrite E. intros Hin. apply list_elem_of_singleton in Hin. discriminate Hin.
Qed.

(** C5 at an issue whose only dependency names an identifier that no
    issue carries: the entry changes nothing and the graph has no edge. *)
Lemma dangling_records_leave_no_edge_witness :
  let A := mkIssue "A" "Ship release" "open" 1%Z [mkDep "ghost" "blocks"] [] [] in
  let nodeMap := snd (graph_nodes plain_status plain_priority [A]) in
  let st := {| graph := fst (graph_nodes plain_status plain_priority [A]);
               edgeSet := ∅ |} in
  index_bool nodeMap "ghost" = false
  /\ add_dependency nodeMap A st (mkDep "ghost" "blocks") = st
  /\ Edges (build_graph (error := string) plain_status plain_priority [A]
              (Parsed [])) = [].
Proof.
  intros A nodeMap st.
  destruct (dangling_records_leave_no_edge (error := string)
              plain_status plain_priority [A] (Parsed []))
    as (_ & Hdep & _).
  split; [vm_compute; reflexivity |].
  split; [| vm_compute; reflexivity].
  apply (Hdep A st (mkDep "ghost" "blocks")). vm_compute. reflexivity.
Defined.

(** *** More on the builder *)

Lemma mapDepTypeToEdgeType_range (depType : string) :
  mapDepTypeToEdgeType depType ∈ edge_types
  /\ mapDepTypeToEdgeType depType <> EdgeTypeUnknown.
Proof.
  unfold mapDepTypeToEdgeType, edge_types.
  repeat match goal with
         | |- context [String.eqb depType ?x] => destruct (String.eqb depType x)
         end;
    cbn [orb];
    (split;
     [repeat first [apply list_elem_of_here | apply list_elem_of_further]
     | discriminate]).
Qed.

Section BuilderMore.

Context {RawStatus RawPriority Priority error : Type}.
Variable mapStatus : RawStatus -> Status.
Variable mapPriority : RawPriority -> Priority.

Implicit Types (bi : BDIssue RawStatus RawPriority) (st : build Priority)
  (nodeMap : gmap string bool) (dep : BDDependency).

(** X4. Whatever the listings, the built graph has exactly one node per
    issue of the list, in the order of the list (an identifier listed twice
    gives two nodes); its node tally is the number of issues and its edge
    tally the number of its edges, both as an [int]; and its max depth is
    0: the builder never computes it. *)
Theorem build_graph_nodes (bdIssues : list (BDIssue RawStatus RawPriority))
    (blockedOut : fetched error (list BDBlocked)) :
  let g := build_graph mapStatus mapPriority bdIssues blockedOut in
  Nodes g = node_of mapStatus mapPriority <$> bdIssues
  /\ ID <$> Nodes g = Issue_ID <$> bdIssues
  /\ NodeCount (Stats g) = int_wrap (len bdIssues)
  /\ EdgeCount (Stats g) = int_wrap (len (Edges g))
  /\ MaxDepth (Stats g) = 0%Z.
Proof.
  intros g.
  destruct (build_graph_kept mapStatus mapPriority bdIssues blockedOut)
    as [Kn [Ktn Kte] Kd _].
  cbn [graph] in Kn, Ktn, Kte, Kd. fold g in Kn, Ktn, Kte, Kd.
  split; [exact Kn |]. split.
  { rewrite Kn, <- list_fmap_compose. reflexivity. }
  split.
  { rewrite Ktn, Kn. unfold len. rewrite length_fmap. reflexivity. }
  split; [exact Kte | exact Kd].
Qed.

(** The key under which the blocked_by loop and the blocked listing
    record an edge. *)
Definition blocker_key (e : GraphEdge) : string :=
  From e +:+ "->" +:+ To e +:+ ":blocks".

(** No edge twice, and every edge recorded under its blocker key. *)
Definition recorded_blocker st : Prop :=
  NoDup (Edges (graph st))
  /\ forall e, e ∈ Edges (graph st) ->
               index_bool (edgeSet st) (blocker_key e) = true.

Lemma recorded_blocker_AddEdge st (e : GraphEdge) :
  recorded_blocker st ->
  index_bool (edgeSet st) (blocker_key e) = false ->
  recorded_blocker {| graph := AddEdge (graph st) e;
                      edgeSet := <[blocker_key e := true]> (edgeSet st) |}.
Proof.
  intros [Hnd Hrec] Hnew. split; cbn [graph edgeSet Edges AddEdge].
  - apply NoDup_app. split; [exact Hnd |]. split.
    + intros x Hx Hxe. apply list_elem_of_singleton in Hxe as ->.
      rewrite (Hrec e Hx) in Hnew. discriminate.
    + apply NoDup_singleton.
  - intros x Hx. apply index_bool_insert.
    apply elem_of_app in Hx as [Hx | Hx].
    + right. apply Hrec, Hx.
    + apply list_elem_of_singleton in Hx as ->. left. reflexivity.
Qed.

Lemma recorded_blocker_add_blocker nodeMap bi st (blockerID : string) :
  recorded_blocker st -> recorded_blocker (add_blocker nodeMap bi st blockerID).
Proof.
  intros Hst. unfold add_blocker.
  destruct (index_bool nodeMap blockerID); cbn [andb]; [| exact Hst].
  destruct (index_bool (edgeSet st) _) eqn:Hkey; cbn [negb]; [exact Hst |].
  apply (recorded_blocker_AddEdge st
           (mkEdge blockerID (Issue_ID bi) EdgeTypeBlocks) Hst Hkey).
Qed.

Lemma recorded_blocker_add_blocked nodeMap (bi : BDBlocked) st (blockerID : string) :
  recorded_blocker st -> recorded_blocker (add_blocked nodeMap bi st blockerID).
Proof.
  intros Hst. unfold add_blocked.
  destruct (index_bool nodeMap blockerID); cbn [andb]; [| exact Hst].
  destruct (index_bool nodeMap (Blocked_ID bi)); cbn [andb]; [| exact Hst].
  destruct (index_bool (edgeSet st) _) eqn:Hkey; cbn [negb]; [exact Hst |].
  apply (recorded_blocker_AddEdge st
           (mkEdge blockerID (Blocked_ID bi) EdgeTypeBlocks) Hst Hkey).
Qed.

(** The entries of the blocked listing that [Graph] goes through. *)
Definition blocked_entries (blockedOut : fetched error (list BDBlocked))
    : list BDBlocked :=
  match blockedOut with
  | Parsed blockedIssues => blockedIssues
  | _ => []
  end.

Lemma build_graph_entries (bdIssues : list (BDIssue RawStatus RawPriority))
    (blockedOut : fetched error (list BDBlocked)) :
  build_graph mapStatus mapPriority bdIssues blockedOut =
  let '(g, nodeMap) := graph_nodes mapStatus mapPriority bdIssues in
  graph (fold_left (add_blocked_issue nodeMap) (blocked_entries blockedOut)
           (fold_left (add_issue_edges nodeMap) bdIssues
              {| graph := g; edgeSet := ∅ |})).
Proof.
  unfold build_graph.
  destruct (graph_nodes mapStatus mapPriority bdIssues) as [g m].
  destruct blockedOut; reflexivity.
Qed.

(** X6. The set of seen keys does keep duplicates out as long as one
    family of sources is in play: when no issue has a blocked_by entry and
    the blocked listing has none either, or when no issue has a dependency
    or dependent entry, no two edges of the built graph are equal. *)
Theorem one_key_family_NoDup (bdIssues : list (BDIssue RawStatus RawPriority))
    (blockedOut : fetched error (list BDBlocked)) :
  (Forall (fun bi => BlockedBy bi = []) bdIssues
   /\ Forall (fun b => Blocked_BlockedBy b = []) (blocked_entries blockedOut))
  \/ Forall (fun bi => Dependencies bi = [] /\ Dependents bi = []) bdIssues ->
  NoDup (Edges (build_graph mapStatus mapPriority bdIssues blockedOut)).
Proof.
  intros Hfamily. rewrite build_graph_entries.
  destruct (graph_nodes_spec mapStatus mapPriority bdIssues) as (_ & He & _).
  destruct (graph_nodes mapStatus mapPriority bdIssues) as [g m].
  cbn [fst] in He.
  destruct Hfamily as [[Hnone Hlisting] | Hnone].
  - assert (H0 : recorded {| graph := g; edgeSet := ∅ |}).
    { split; cbn [graph edgeSet]; rewrite He; [apply NoDup_nil; exact I |].
      intros e Hin. inversion Hin. }
    apply (fold_left_keeps recorded (add_blocked_issue m)).
    + apply (fold_left_keeps recorded (add_issue_edges m) bdIssues _ H0).
      intros st bi Hbi Hst. unfold add_issue_edges.
      rewrite Forall_forall in Hnone. rewrite (Hnone bi Hbi). cbn [fold_left].
      apply fold_left_keeps; [| intros; apply recorded_add_dependent; assumption].
      apply fold_left_keeps; [| intros; apply recorded_add_dependency; assumption].
      exact Hst.
    + intros st b Hb Hst. unfold add_blocked_issue.
      rewrite Forall_forall in Hlisting. rewrite (Hlisting b Hb). exact Hst.
  - assert (H0 : recorded_blocker {| graph := g; edgeSet := ∅ |}).
    { split; cbn [graph edgeSet]; rewrite He; [apply NoDup_nil; exact I |].
      intros e Hin. inversion Hin. }
    apply (fold_left_keeps recorded_blocker (add_blocked_issue m)).
    + apply (fold_left_keeps recorded_blocker (add_issue_edges m) bdIssues _ H0).
      intros st bi Hbi Hst. unfold add_issue_edges.
      rewrite Forall_forall in Hnone. destruct (Hnone bi Hbi) as [-> ->].
      cbn [fold_left].
      apply fold_left_keeps; [exact Hst |].
      intros; apply recorded_blocker_add_blocker; assumption.
    + intros st b Hb Hst. unfold add_blocked_issue.
      apply fold_left_keeps; [exact Hst |].
      intros; apply recorded_blocker_add_blocked; assumption.
Qed.

(** X7. A relation reported from both sides gives one edge: after an
    issue's forward dependency entry on a loaded issue has been processed,
    the mirrored entry in that issue's dependents list (same two
    identifiers, same type) changes nothing, and neither does the forward
    entry met a second time. *)
Theorem mirrored_entry_adds_nothing nodeMap bi
    (bj : BDIssue RawStatus RawPriority) st dep (dep' : BDDependency) :
  index_bool nodeMap (Dep_ID dep) = true ->
  Issue_ID bj = Dep_ID dep -> Dep_ID dep' = Issue_ID bi ->
  DepType dep' = DepType dep ->
  let st' := add_dependency nodeMap bi st dep in
  add_dependent nodeMap bj st' dep' = st'
  /\ add_dependency nodeMap bi st' dep = st'
  /\ exists edges,
       Edges (graph st') = (Edges (graph st) ++ edges)%list
       /\ (edges = [] \/
           edges = [mkEdge (Dep_ID dep) (Issue_ID bi)
                      (mapDepTypeToEdgeType (DepType dep))]).
Proof.
  intros Hnode Hj Hi Ht st'.
  set (key := Issue_ID bi +:+ "->" +:+ Dep_ID dep +:+ ":" +:+
              mapDepTypeToEdgeType (DepType dep)).
  assert (Hseen : index_bool (edgeSet st') key = true).
  { subst st'. unfold add_dependency. fold key. rewrite Hnode. cbn [andb].
    destruct (index_bool (edgeSet st) key) eqn:Hk; cbn [negb edgeSet].
    - exact Hk.
    - apply index_bool_insert. left. reflexivity. }
  split; [| split].
  - unfold add_dependent. rewrite Hi, Hj, Ht. fold key. rewrite Hseen.
    rewrite andb_false_r. reflexivity.
  - unfold add_dependency at 1. fold key. rewrite Hseen.
    rewrite andb_false_r. reflexivity.
  - subst st'. rewrite add_dependency_edges. fold key. rewrite Hnode. cbn [andb].
    destruct (negb (index_bool (edgeSet st) key)); eexists; split;
      try reflexivity; [right | left]; reflexivity.
Qed.

(** Edges whose type is one of the edge type constants, "unknown"
    excepted. *)
Definition typed (edges : list GraphEdge) : Prop :=
  Forall (fun e => Type_ e ∈ edge_types /\ Type_ e <> EdgeTypeUnknown) edges.

Lemma typed_snoc (edges : list GraphEdge) (e : GraphEdge) :
  typed edges -> Type_ e ∈ edge_types -> Type_ e <> EdgeTypeUnknown ->
  typed (edges ++ [e]).
Proof.
  intros Hedges Hin Hne. apply Forall_app. split; [exact Hedges |].
  apply Forall_cons. split; [split; assumption | apply Forall_nil; exact I].
Qed.

Lemma blocks_typed :
  EdgeTypeBlocks ∈ edge_types /\ EdgeTypeBlocks <> EdgeTypeUnknown.
Proof. split; [apply list_elem_of_here | discriminate]. Qed.

Lemma typed_add_issue_edges nodeMap st bi :
  typed (Edges (graph st)) ->
  typed (Edges (graph (add_issue_edges nodeMap st bi))).
Proof.
  intros Hst. unfold add_issue_edges.
  apply (fold_left_keeps (fun st => typed (Edges (graph st)))).
  - apply (fold_left_keeps (fun st => typed (Edges (graph st)))).
    + apply (fold_left_keeps (fun st => typed (Edges (graph st))));
        [exact Hst |].
      intros st' dep _ Hst'. unfold add_dependency.
      destruct (_ && _); [| exact Hst'].
      apply typed_snoc; [exact Hst' | |];
        apply (mapDepTypeToEdgeType_range (DepType dep)).
    + intros st' dep _ Hst'. unfold add_dependent.
      destruct (_ && _); [| exact Hst'].
      apply typed_snoc; [exact Hst' | |];
        apply (mapDepTypeToEdgeType_range (DepType dep)).
  - intros st' b _ Hst'. unfold add_blocker.
    destruct (_ && _); [| exact Hst'].
    apply typed_snoc; [exact Hst' | |]; apply blocks_typed.
Qed.

(** X8. Every edge of a built graph carries one of the thirteen edge types
    other than "unknown", whatever strings the dependency entries carry as
    their type: [ParseEdgeType] reads each edge's type back as itself. *)
Theorem build_graph_edge_types (bdIssues : list (BDIssue RawStatus RawPriority))
    (blockedOut : fetched error (list BDBlocked)) (e : GraphEdge) :
  e ∈ Edges (build_graph mapStatus mapPriority bdIssues blockedOut) ->
  Type_ e ∈ edge_types
  /\ Type_ e <> EdgeTypeUnknown
  /\ ParseEdgeType (Type_ e) = Type_ e.
Proof.
  intros Hin.
  assert (Htyped : typed (Edges (build_graph mapStatus mapPriority bdIssues
                                   blockedOut))).
  { rewrite build_graph_entries.
    destruct (graph_nodes_spec mapStatus mapPriority bdIssues) as (_ & He & _).
    destruct (graph_nodes mapStatus mapPriority bdIssues) as [g m].
    cbn [fst] in He.
    apply (fold_left_keeps (fun st => typed (Edges (graph st)))).
    - apply (fold_left_keeps (fun st => typed (Edges (graph st)))).
      + cbn [graph]. rewrite He. apply Forall_nil. exact I.
      + intros st bi _ Hst. apply typed_add_issue_edges, Hst.
    - intros st b _ Hst. unfold add_blocked_issue.
      apply (fold_left_keeps (fun st => typed (Edges (graph st))));
        [exact Hst |].
      intros st' blockerID _ Hst'. unfold add_blocked.
      destruct (_ && _); [| exact Hst'].
      apply typed_snoc; [exact Hst' | |]; apply blocks_typed. }
  unfold typed in Htyped. rewrite Forall_forall in Htyped.
  destruct (Htyped e Hin) as [Hrange Hknown].
  split; [exact Hrange |]. split; [exact Hknown |].
  apply ParseEdgeType_fixes, Hrange.
Qed.

End BuilderMore.

(** X6 at two issues that report one relation from both sides and have no
    blocked_by entries, the blocked listing having failed. *)
Lemma one_key_family_NoDup_witness :
  let A := mkIssue "A" "Ship release" "blocked" 1%Z [mkDep "B" "blocks"] [] [] in
  let B := mkIssue "B" "Fix build" "open" 2%Z [] [mkDep "A" "blocks"] [] in
  NoDup (Edges (build_graph plain_status plain_priority [A; B]
                  (ExecFailed "exit status 1"))).
Proof.
  intros A B. apply one_key_family_NoDup. left. split.
  - repeat constructor.
  - constructor.
Defined.

(** X7 at the same two issues: B's dependents entry for A comes after A's
    dependency entry on B and changes nothing. *)
Lemma mirrored_entry_adds_nothing_witness :
  let A := mkIssue "A" "Ship release" "blocked" 1%Z [mkDep "B" "blocks"] [] [] in
  let B := mkIssue "B" "Fix build" "open" 2%Z [] [mkDep "A" "blocks"] [] in
  let nodeMap := snd (graph_nodes plain_status plain_priority [A; B]) in
  let st := {| graph := fst (graph_nodes plain_status plain_priority [A; B]);
               edgeSet := ∅ |} in
  let st' := add_dependency nodeMap A st (mkDep "B" "blocks") in
  add_dependent nodeMap B st' (mkDep "A" "blocks") = st'.
Proof.
  intros A B nodeMap st st'.
  destruct (mirrored_entry_adds_nothing nodeMap A B st
              (mkDep "B" "blocks") (mkDep "A" "blocks")) as (Hmirror & _).
  - vm_compute. reflexivity.
  - reflexivity.
  - reflexivity.
  - reflexivity.
  - exact Hmirror.
Defined.

(** *** The other methods of the adapter *)

Section MethodFacts.

Context {Output error RawStatus RawPriority Priority Issue : Type}.
Variable Execute : list string -> error + Output.
Variable ParseIssueList : Output -> error + list (BDIssue RawStatus RawPriority).
Variable ParseBlockedList : Output -> error + list BDBlocked.
Variable ToModelIssue : BDIssue RawStatus RawPriority -> Issue.
Variables IsNotFoundError IsNotInitializedError : error -> bool.
Variable mapStatus : RawStatus -> Status.
Variable mapPriority : RawPriority -> Priority.

#[local] Abbreviation GetIssue :=
  (GetIssue Execute ParseIssueList ToModelIssue IsNotFoundError).
#[local] Abbreviation ListIssues :=
  (ListIssues Execute ParseIssueList ToModelIssue).
#[local] Abbreviation Graph_of_executor :=
  (Graph_of_executor Execute ParseIssueList ParseBlockedList
     mapStatus mapPriority).

(** X9. [GetIssue] returns an issue exactly when [bd show] succeeds and
    its output parses to a non-empty list, and the issue is then the first
    of the list; it returns a not-found error, always for the identifier
    asked for, exactly when the executor's error is a not-found error or
    the output parses to the empty list. *)
Theorem GetIssue_outcomes (id : string) :
  (forall issue,
     GetIssue id = inr issue <->
     exists output bi rest,
       Execute ["show"; id; "--json"] = inr output
       /\ ParseIssueList output = inr (bi :: rest)
       /\ issue = ToModelIssue bi)
  /\ (forall id',
        GetIssue id = inl (ErrNotFound id') <->
        id' = id
        /\ ((exists err, Execute ["show"; id; "--json"] = inl err
                         /\ IsNotFoundError err = true)
            \/ (exists output, Execute ["show"; id; "--json"] = inr output
                               /\ ParseIssueList output = inr []))).
Proof.
  unfold Beads.GetIssue. split.
  - intros issue. split.
    + destruct (Execute ["show"; id; "--json"]) as [err | output].
      { destruct (IsNotFoundError err); discriminate. }
      destruct (ParseIssueList output) as [err | [| bi rest]] eqn:Hparse;
        try discriminate.
      intros [= <-]. exists output, bi, rest. repeat split. exact Hparse.
    + intros (output & bi & rest & -> & -> & ->). reflexivity.
  - intros id'. split.
    + destruct (Execute ["show"; id; "--json"]) as [err | output].
      { destruct (IsNotFoundError err) eqn:Hnf; [| discriminate].
        intros [= <-]. split; [reflexivity |]. left. exists err. split; reflexivity || exact Hnf. }
      destruct (ParseIssueList output) as [err | [| bi rest]] eqn:Hparse;
        try discriminate.
      intros [= <-]. split; [reflexivity |]. right. exists output.
      split; [reflexivity | exact Hparse].
    + intros [-> [(err & -> & ->) | (output & -> & ->)]]; reflexivity.
Qed.

(** X10. [Graph] and an unfiltered [ListIssues] run the same command and
    share its fate: both fail with the executor's error, or both with a
    parse error of the list command, or both succeed, and then the graph
    has one node per issue returned, in the same order. *)
Theorem Graph_follows_ListIssues (filter : IssueFilter) :
  Filter_Status filter = EmptyString ->
  match ListIssues filter, Graph_of_executor with
  | inr issues, inr g =>
      exists bdIssues,
        issues = List.map ToModelIssue bdIssues
        /\ Nodes g = node_of mapStatus mapPriority <$> bdIssues
        /\ length (Nodes g) = length issues
  | inl (ErrExecutor err), inl (ExecutorError err') => err = err'
  | inl (ErrParse command err), inl (ParseError command' err') =>
      command = command' /\ err = err'
  | _, _ => False
  end.
Proof.
  intros Hstatus.
  unfold Beads.ListIssues, Beads.Graph_of_executor, list_args.
  rewrite Hstatus. cbn [String.eqb negb].
  generalize (fetch Execute ["blocked"; "--json"] ParseBlockedList).
  intros blockedOut. unfold fetch.
  destruct (Execute ["list"; "--json"]) as [err | output];
    [cbn; reflexivity |].
  destruct (ParseIssueList output) as [err | bdIssues];
    [cbn; split; reflexivity |].
  cbn [CLIAdapter_Graph].
  destruct (build_graph_kept mapStatus mapPriority bdIssues blockedOut)
    as [Hnodes _ _ _].
  cbn [graph] in Hnodes.
  exists bdIssues. split; [reflexivity |]. split; [exact Hnodes |].
  rewrite Hnodes, length_fmap, List.length_map. reflexivity.
Qed.

End MethodFacts.

(** A stand-in executor: the list command succeeds, every other command
    fails; its output parses to two issues. *)
Definition listing_Execute (args : list string) : string + string :=
  if decide (args = ["list"; "--json"]) then inr "[...]"
  else inl "exit status 1".

Definition listing_Parse (output : string) : string + list (BDIssue string Z) :=
  inr [mkIssue "A" "Ship release" "blocked" 1%Z [mkDep "B" "blocks"] [] [];
       mkIssue "B" "Fix build" "open" 2%Z [] [] []].

(** X10 at that executor and an empty filter: both methods succeed, and
    the graph has the two nodes. *)
Lemma Graph_follows_ListIssues_witness :
  match ListIssues listing_Execute listing_Parse (fun bi => Issue_ID bi)
          (mkFilter EmptyString EmptyString EmptyString 0 0),
        Graph_of_executor listing_Execute listing_Parse
          (fun _ : string => inl "unused") plain_status plain_priority with
  | inr issues, inr g => issues = ["A"; "B"] /\ ID <$> Nodes g = ["A"; "B"]
  | _, _ => False
  end.
Proof.
  pose proof (Graph_follows_ListIssues listing_Execute listing_Parse
                (fun _ : string => inl "unused") (fun bi => Issue_ID bi)
                plain_status plain_priority
                (mkFilter EmptyString EmptyString EmptyString 0 0) eq_refl)
    as Hboth.
  destruct (ListIssues _ _ _ _) as [e | issues] eqn:Hlist;
    destruct (Graph_of_executor _ _ _ _ _) as [e' | g] eqn:Hgraph;
    try (vm_compute in Hlist; discriminate Hlist);
    try (vm_compute in Hgraph; discriminate Hgraph).
  vm_compute in Hlist. vm_compute in Hgraph.
  injection Hlist as <-. injection Hgraph as <-. split; reflexivity.
Defined.

(** X8 at an issue whose dependency carries a type the switch does not
    know: the edge it yields is typed "blocks". *)
Lemma build_graph_edge_types_witness :
  let A := mkIssue "A" "Ship release" "blocked" 1%Z
             [mkDep "B" "discovered-from"] [] [] in
  let B := mkIssue "B" "Fix build" "open" 2%Z [] [] [] in
  let g := build_graph (error := string) plain_status plain_priority [A; B]
             (Parsed []) in
  Edges g = [mkEdge "B" "A" EdgeTypeBlocks]
  /\ ParseEdgeType (Type_ (mkEdge "B" "A" EdgeTypeBlocks)) = EdgeTypeBlocks.
Proof.
  intros A B g.
  assert (Hedges : Edges g = [mkEdge "B" "A" EdgeTypeBlocks])
    by (vm_compute; reflexivity).
  split; [exact Hedges |].
  destruct (build_graph_edge_types (error := string) plain_status plain_priority
              [A; B] (Parsed []) (mkEdge "B" "A" EdgeTypeBlocks))
    as (_ & _ & Hparse).
  - fold g. rewrite Hedges. left.
  - exact Hparse.
Defined.

End BeadsFacts.

(** ** Properties of package api *)

Module ApiFacts.
Import Model Api.

(** *** The graph endpoint *)

Section HandlerFacts.

Context {Priority error : Type}.
Variable Priority_json : Priority -> json.
Variable Error_ : error -> string.
Variables IsBDNotFoundError IsNotInitializedError IsNotFoundError IsParseError
  : error -> bool.
Variable checkBeadsInitialized : ResponseWriter -> bool * ResponseWriter.

#[local] Abbreviation handleGraph :=
  (handleGraph Priority_json Error_ IsBDNotFoundError IsNotInitializedError
     IsNotFoundError IsParseError checkBeadsInitialized).

(** C10. With the beads check passed and the graph fetched, the first
    value of the request's format parameter decides the response.  With
    "dot" the response is 200 with the graph's DOT text as its body, under
    the graphviz content type and an inline disposition.  With "svg" it is
    501 with the error object of code NOT_IMPLEMENTED.  In every other case
    (no format parameter, a parameter without value, the empty value, "json"
    or any other value) it is 200 with the JSON encoding of the graph. *)
Theorem handleGraph_by_format (query : gmap string (list string))
    (graph : Graph Priority) :
  checkBeadsInitialized NewRecorder = (true, NewRecorder) ->
  let w := handleGraph NewRecorder query (inr graph) in
  (forall more, query !! "format" = Some ("dot" :: more) ->
     Code w = Some 200%Z
     /\ Body w = [Text (ToDOT graph)]
     /\ Header w =
          {[ "Content-Type" := "text/vnd.graphviz; charset=utf-8";
             "Content-Disposition" :=
               "inline; filename=" +:+ dq +:+ "dependencies.dot" +:+ dq ]})
  /\ (forall more, query !! "format" = Some ("svg" :: more) ->
        Code w = Some 501%Z
        /\ Body w =
             [Encoded (JObject
                [("error", JString
                    "SVG export requires graphviz. Use DOT format and convert with 'dot -Tsvg'");
                 ("code", JString "NOT_IMPLEMENTED")])]
        /\ Header w = {[ "Content-Type" := "application/json" ]})
  /\ (query !! "format" = None \/ query !! "format" = Some []
      \/ (exists value more, query !! "format" = Some (value :: more)
                             /\ value <> "dot" /\ value <> "svg") ->
        Code w = Some 200%Z
        /\ Body w = [Encoded (Graph_json Priority_json graph)]
        /\ Header w = {[ "Content-Type" := "application/json" ]}).
Proof.
  intros Hcheck w. subst w. unfold handleGraph, Query_Get.
  rewrite Hcheck. cbn [negb].
  split; [| split].
  - intros more Hdot. rewrite Hdot. cbn.
    split; [reflexivity |]. split; [reflexivity |].
    apply map_eq. intros key. vm_compute. reflexivity.
  - intros more Hsvg. rewrite Hsvg. cbn. repeat split.
  - intros [Hnone | [Hnil | (value & more & Hsome & Hdot & Hsvg)]].
    + rewrite Hnone. cbn. repeat split.
    + rewrite Hnil. cbn. repeat split.
    + rewrite Hsome.
      destruct (String.eqb_spec value EmptyString) as [Hempty | Hne].
      * cbn. repeat split.
      * apply String.eqb_neq in Hdot, Hsvg. rewrite Hdot, Hsvg. cbn.
        repeat split.
Qed.

End HandlerFacts.

(** The graph of the scenario: A blocked, B done, A depending on B. *)
Definition scenario_graph : Graph Z :=
  AddEdge (AddNode (AddNode NewGraph
    (mkNode "A" "Ship release" StatusBlocked 1%Z))
    (mkNode "B" "Fix build" StatusDone 2%Z))
    (mkEdge "B" "A" EdgeTypeBlocks).

(** The graph endpoint with nothing in the way: the beads check passes and
    the adapter returns the scenario's graph. *)
Definition get_graph (query : gmap string (list string)) : ResponseWriter :=
  handleGraph (error := string) JNumber (fun e => e)
    (fun _ => false) (fun _ => false) (fun _ => false) (fun _ => false)
    (fun w => (true, w)) NewRecorder query (inr scenario_graph).

(** C10 at four requests for the scenario's graph: [?format=dot] is
    answered 200 with the DOT text, [?format=svg] 501 NOT_IMPLEMENTED, and
    both [?format=yaml] and a request without the parameter 200 with the
    JSON of the graph. *)
Lemma handleGraph_by_format_witness :
  let dot_text :=
    "digraph dependencies {" +:+ nl +:+
    "  rankdir=LR;" +:+ nl +:+
    "  node [shape=box, style=rounded];" +:+ nl +:+ nl +:+
    "  " +:+ dq +:+ "A" +:+ dq +:+ " [label=" +:+ dq +:+ "Ship release" +:+ dq +:+
      ", fillcolor=" +:+ dq +:+ "#ef4444" +:+ dq +:+
      ", style=" +:+ dq +:+ "filled,rounded" +:+ dq +:+ "];" +:+ nl +:+
    "  " +:+ dq +:+ "B" +:+ dq +:+ " [label=" +:+ dq +:+ "Fix build" +:+ dq +:+
      ", fillcolor=" +:+ dq +:+ "#22c55e" +:+ dq +:+
      ", style=" +:+ dq +:+ "filled,rounded" +:+ dq +:+ "];" +:+ nl +:+ nl +:+
    "  " +:+ dq +:+ "B" +:+ dq +:+ " -> " +:+ dq +:+ "A" +:+ dq +:+
      " [color=" +:+ dq +:+ "#ef4444" +:+ dq +:+ ", penwidth=2, label=" +:+
      dq +:+ "blocks" +:+ dq +:+ "];" +:+ nl +:+
    "}" +:+ nl in
  let graph_json :=
    JObject
      [("nodes", JArray
          [JObject [("id", JString "A"); ("title", JString "Ship release");
                    ("status", JString "blocked"); ("priority", JNumber 1)];
           JObject [("id", JString "B"); ("title", JString "Fix build");
                    ("status", JString "done"); ("priority", JNumber 2)]]);
       ("edges", JArray [JObject [("from", JString "B"); ("to", JString "A");
                                  ("type", JString "blocks")]]);
       ("stats", JObject [("node_count", JNumber 2); ("edge_count", JNumber 1);
                          ("max_depth", JNumber 0)])] in
  (Code (get_graph {["format" := ["dot"]]}) = Some 200%Z
   /\ Body (get_graph {["format" := ["dot"]]}) = [Text dot_text])
  /\ (Code (get_graph {["format" := ["svg"]]}) = Some 501%Z
      /\ Body (get_graph {["format" := ["svg"]]}) =
           [Encoded (JObject
              [("error", JString
                  "SVG export requires graphviz. Use DOT format and convert with 'dot -Tsvg'");
               ("code", JString "NOT_IMPLEMENTED")])])
  /\ (Code (get_graph {["format" := ["yaml"]]}) = Some 200%Z
      /\ Body (get_graph {["format" := ["yaml"]]}) = [Encoded graph_json])
  /\ (Code (get_graph ∅) = Some 200%Z
      /\ Body (get_graph ∅) = [Encoded graph_json]).
Proof.
  intros dot_text graph_json.
  pose proof (fun query =>
    handleGraph_by_format (error := string) JNumber (fun e => e)
      (fun _ => false) (fun _ => false) (fun _ => false) (fun _ => false)
      (fun w => (true, w)) query scenario_graph eq_refl) as Hformat.
  split; [| split; [| split]].
  - destruct (Hformat {["format" := ["dot"]]}) as (Hdot & _ & _).
    destruct (Hdot [] eq_refl) as (Hcode & Hbody & _).
    split; [exact Hcode | exact Hbody].
  - destruct (Hformat {["format" := ["svg"]]}) as (_ & Hsvg & _).
    destruct (Hsvg [] eq_refl) as (Hcode & Hbody & _).
    split; [exact Hcode | exact Hbody].
  - destruct (Hformat {["format" := ["yaml"]]}) as (_ & _ & Hjson).
    destruct Hjson as (Hcode & Hbody & _).
    + right. right. exists "yaml", []. split; [reflexivity |].
      split; discriminate.
    + split; [exact Hcode | exact Hbody].
  - destruct (Hformat ∅) as (_ & _ & Hjson).
    destruct Hjson as (Hcode & Hbody & _).
    + left. reflexivity.
    + split; [exact Hcode | exact Hbody].
Defined.

(** *** The error, health and list handlers *)

Section MoreHandlerFacts.

Context {Output RawStatus RawPriority Issue error : Type}.
Variable config_Version : string.
Variable Error_ : error -> string.
Variables IsBDNotFoundError IsNotInitializedError IsNotFoundError IsParseError
  : error -> bool.
Variable checkBeadsInitialized : ResponseWriter -> bool * ResponseWriter.

#[local] Abbreviation handleAdapterError :=
  (handleAdapterError Error_ IsBDNotFoundError IsNotInitializedError
     IsNotFoundError IsParseError).

(** X11. An adapter error is always answered as an error: on a new
    response, [handleAdapterError] sets status 503, 404 or 500 (404 exactly
    for a not-found error that is neither a missing-CLI nor a
    not-initialized error), the JSON content type, and one body, the error
    object with the error's own message and one of five codes.  The graph
    endpoint answers a failed fetch with this response whatever format was
    asked for, "svg" included. *)
Theorem adapter_error_response {Priority : Type}
    (Priority_json : Priority -> json) (err : error) :
  let w := handleAdapterError NewRecorder err in
  (Code w = Some StatusServiceUnavailable \/ Code w = Some StatusNotFound
   \/ Code w = Some StatusInternalServerError)
  /\ (exists code,
        Body w = [Encoded (JObject [("error", JString (Error_ err));
                                    ("code", JString code)])]
        /\ code ∈ ["BD_NOT_FOUND"; "BEADS_NOT_INIT"; "ISSUE_NOT_FOUND";
                   "PARSE_ERROR"; "BD_ERROR"])
  /\ Header w !! "Content-Type" = Some "application/json"
  /\ (Code w = Some StatusNotFound <->
      IsBDNotFoundError err = false /\ IsNotInitializedError err = false
      /\ IsNotFoundError err = true)
  /\ (checkBeadsInitialized NewRecorder = (true, NewRecorder) ->
      forall query,
        handleGraph Priority_json Error_ IsBDNotFoundError
          IsNotInitializedError IsNotFoundError IsParseError
          checkBeadsInitialized NewRecorder query (inl err) = w).
Proof.
  intros w. subst w.
  assert (Hgraph : checkBeadsInitialized NewRecorder = (true, NewRecorder) ->
                   forall query,
                     handleGraph Priority_json Error_ IsBDNotFoundError
                       IsNotInitializedError IsNotFoundError IsParseError
                       checkBeadsInitialized NewRecorder query (inl err) =
                     handleAdapterError NewRecorder err).
  { intros Hcheck query. unfold handleGraph. rewrite Hcheck. reflexivity. }
  unfold Api.handleAdapterError in *.
  unfold StatusServiceUnavailable, StatusNotFound, StatusInternalServerError.
  destruct (IsBDNotFoundError err);
    [| destruct (IsNotInitializedError err);
       [| destruct (IsNotFoundError err);
          [| destruct (IsParseError err)]]];
    cbn;
    (split; [auto |]);
    (split; [eexists; split; [reflexivity |];
             repeat first [apply list_elem_of_here | apply list_elem_of_further] |]);
    (split; [reflexivity |]);
    (split; [| exact Hgraph]);
    (split; [intros Hcode; first [discriminate Hcode | repeat split]
            | intros (H1 & H2 & H3); first [discriminate | reflexivity]]).
Qed.

Variable Execute : list string -> error + Output.
Variable ParseVersion : Output -> string.

(** X12. The health endpoint on the CLI adapter answers 200 exactly when
    [bd status] succeeds: the response then says "ok", initialized, no
    error, and carries the bd version if [bd --version] succeeded (its
    failure is not an error).  Otherwise the response says "error", not
    initialized, with no bd version, under status 503 or 500; a
    not-initialized error of the executor gives 503.  The server's own
    version is always reported. *)
Theorem handleHealth_follows_bd_status :
  let reply :=
    handleHealth config_Version Error_ IsBDNotFoundError
      (Beads.IsInitialized Execute IsNotInitializedError)
      (Beads.Version Execute ParseVersion) in
  (fst reply = StatusOK <-> exists output, Execute ["status"] = inr output)
  /\ (fst reply = StatusOK ->
      Health_Status (snd reply) = "ok"
      /\ BeadsInitialized (snd reply) = true
      /\ Health_Error (snd reply) = EmptyString
      /\ BDVersion (snd reply) =
           match Execute ["--version"] with
           | inr output => ParseVersion output
           | inl _ => EmptyString
           end)
  /\ (fst reply <> StatusOK ->
      Health_Status (snd reply) = "error"
      /\ BeadsInitialized (snd reply) = false
      /\ BDVersion (snd reply) = EmptyString
      /\ (fst reply = StatusServiceUnavailable
          \/ fst reply = StatusInternalServerError))
  /\ (forall err, Execute ["status"] = inl err ->
                  IsNotInitializedError err = true ->
                  fst reply = StatusServiceUnavailable)
  /\ Health_Version (snd reply) = config_Version.
Proof.
  intros reply. subst reply.
  unfold handleHealth, Beads.IsInitialized, Beads.Version.
  destruct (Execute ["status"]) as [err | output] eqn:Hstatus.
  - destruct (IsNotInitializedError err) eqn:Hni.
    + cbn. split; [split; [discriminate | intros [? [=]]] |].
      split; [discriminate |]. split; [auto |]. split; [reflexivity | reflexivity].
    + destruct (IsBDNotFoundError err) eqn:Hbd; cbn;
        (split; [split; [discriminate | intros [? [=]]] |]);
        (split; [discriminate |]); (split; [auto |]);
        (split; [intros err' [= <-]; congruence | reflexivity]).
  - cbn. split; [split; [eauto | reflexivity] |].
    split.
    { intros _. destruct (Execute ["--version"]); repeat split. }
    split; [congruence |]. split; [discriminate | reflexivity].
Qed.

Variable ParseIssueList : Output -> error + list (Beads.BDIssue RawStatus RawPriority).
Variable ToModelIssue : Beads.BDIssue RawStatus RawPriority -> Issue.
Variable Atoi : string -> option Z.
Variable NewIssueFilter : IssueFilter.
Variable IssueListResponse_json : IssueListResponse Issue -> json.
Variables IsBDNotFoundError' IsNotInitializedError' IsNotFoundError'
  IsParseError' : Beads.adapter_error error -> bool.
Variable Error_' : Beads.adapter_error error -> string.

#[local] Abbreviation list_filter := (list_filter Atoi NewIssueFilter).
#[local] Abbreviation CLI_ListIssues :=
  (Beads.ListIssues Execute ParseIssueList ToModelIssue).

Lemma list_filter_status (query : gmap string (list string)) :
  Filter_Status (list_filter query) = Query_Get query "status".
Proof.
  unfold Api.list_filter.
  destruct (negb (String.eqb (Query_Get query "limit") EmptyString));
    [destruct (Atoi (Query_Get query "limit")) as [limit |];
     [destruct (0 <? limit)%Z |] |];
    (destruct (negb (String.eqb (Query_Get query "offset") EmptyString));
     [destruct (Atoi (Query_Get query "offset")) as [offset |];
      [destruct (0 <=? offset)%Z |] |]);
    reflexivity.
Qed.

(** X13. On the CLI adapter, the list endpoint's parent, search, limit and
    offset parameters never change which issues come back.  The executor is
    called with list --json, followed by --status and the first status
    value when that is not empty, and with nothing else of the query; so
    two queries with the same status values get the same result from the
    adapter.  When the listing succeeds the response is 200 with every
    parsed issue, the total equal to their number, and limit and offset
    only echoed: the limit is the first limit value when that is a number
    above 0 and the filter's default otherwise, the offset is the first
    offset value when that is a number from 0 on and the default
    otherwise. *)
Theorem handleListIssues_ignores_paging (query : gmap string (list string)) :
  let value key :=
    match query !! key with Some (v :: _) => v | _ => EmptyString end in
  let args :=
    if String.eqb (value "status") EmptyString then ["list"; "--json"]
    else ["list"; "--json"; "--status"; value "status"] in
  let limit :=
    if String.eqb (value "limit") EmptyString then Filter_Limit NewIssueFilter
    else match Atoi (value "limit") with
         | Some n => if (0 <? n)%Z then n else Filter_Limit NewIssueFilter
         | None => Filter_Limit NewIssueFilter
         end in
  let offset :=
    if String.eqb (value "offset") EmptyString then Filter_Offset NewIssueFilter
    else match Atoi (value "offset") with
         | Some n => if (0 <=? n)%Z then n else Filter_Offset NewIssueFilter
         | None => Filter_Offset NewIssueFilter
         end in
  Beads.list_args (list_filter query) = args
  /\ (forall query',
        query' !! "status" = query !! "status" ->
        CLI_ListIssues (list_filter query') = CLI_ListIssues (list_filter query))
  /\ (forall output bdIssues,
        checkBeadsInitialized NewRecorder = (true, NewRecorder) ->
        Execute args = inr output ->
        ParseIssueList output = inr bdIssues ->
        handleListIssues Error_' IsBDNotFoundError' IsNotInitializedError'
          IsNotFoundError' IsParseError' checkBeadsInitialized Atoi
          NewIssueFilter IssueListResponse_json NewRecorder query
          CLI_ListIssues =
        {| Header := {[ "Content-Type" := "application/json" ]};
           Code := Some 200%Z;
           Body := [Encoded (IssueListResponse_json
                      {| Issues := List.map ToModelIssue bdIssues;
                         Total := Z.of_nat (length bdIssues);
                         Resp_Limit := limit; Resp_Offset := offset |})] |}).
Proof.
  intros value args limit offset.
  assert (Hargs : Beads.list_args (list_filter query) = args).
  { unfold Beads.list_args. rewrite list_filter_status.
    unfold args, Query_Get. fold (value "status").
    destruct (String.eqb (value "status") EmptyString); reflexivity. }
  assert (Hlimit : Filter_Limit (list_filter query) = limit
                   /\ Filter_Offset (list_filter query) = offset).
  { unfold Api.list_filter, limit, offset, Query_Get.
    fold (value "limit"). fold (value "offset").
    destruct (String.eqb (value "limit") EmptyString);
      [| destruct (Atoi (value "limit")) as [n |];
         [destruct (0 <? n)%Z |]];
      (destruct (String.eqb (value "offset") EmptyString);
       [| destruct (Atoi (value "offset")) as [m |];
          [destruct (0 <=? m)%Z |]]);
      split; reflexivity. }
  split; [exact Hargs |]. split.
  - intros query' Hsame. unfold Beads.ListIssues, Beads.list_args.
    rewrite !list_filter_status. unfold Query_Get. rewrite Hsame. reflexivity.
  - intros output bdIssues Hcheck Hexec Hparse.
    unfold handleListIssues. rewrite Hcheck. cbn [negb].
    unfold Beads.ListIssues. rewrite Hargs, Hexec, Hparse.
    destruct Hlimit as [-> ->].
    unfold len. rewrite List.length_map. reflexivity.
Qed.

End MoreHandlerFacts.

(** Stand-ins for the list endpoint: an executor that knows one command
    line, a parser that finds two issues in any output, [Atoi] on one-digit
    numbers, a filter whose defaults are limit 50 and offset 0, and the
    list response encoded member by member. *)
Definition open_issues_only (args : list string) : string + string :=
  if bool_decide (args = ["list"; "--json"; "--status"; "open"])
  then inr "[A, B]" else inl "unexpected arguments".

Definition two_issues (output : string)
    : string + list (Beads.BDIssue string Z) :=
  inr [Beads.mkIssue "A" "Ship release" "open" 1%Z [] [] [];
       Beads.mkIssue "B" "Fix build" "open" 2%Z [] [] []].

Definition digit_Atoi (s : string) : option Z :=
  match s with
  | String c EmptyString =>
      let n := (Z.of_nat (nat_of_ascii c) - 48)%Z in
      if ((0 <=? n) && (n <=? 9))%Z then Some n else None
  | _ => None
  end.

Definition list_response_json (resp : IssueListResponse string) : json :=
  JObject [("issues", JArray (JString <$> Issues resp));
           ("total", JNumber (Total resp));
           ("limit", JNumber (Resp_Limit resp));
           ("offset", JNumber (Resp_Offset resp))].

(** The list endpoint on these, the beads check passing. *)
Definition get_issues (query : gmap string (list string)) : ResponseWriter :=
  handleListIssues (fun _ => EmptyString)
    (fun _ => false) (fun _ => false) (fun _ => false) (fun _ => false)
    (fun w => (true, w)) digit_Atoi
    (mkFilter EmptyString EmptyString EmptyString 50 0) list_response_json
    NewRecorder query
    (Beads.ListIssues open_issues_only two_issues
       (Beads.Issue_ID (RawStatus := string) (RawPriority := Z))).

(** X13 at [?status=open&parent=A&search=build&limit=1&offset=5]: the
    executor is asked for the open issues only, and both issues come back,
    under limit 1 and offset 5. *)
Lemma handleListIssues_ignores_paging_witness :
  get_issues (<["status" := ["open"]]> (<["parent" := ["A"]]>
                (<["search" := ["build"]]> (<["limit" := ["1"]]>
                   (<["offset" := ["5"]]> ∅))))) =
  {| Header := {[ "Content-Type" := "application/json" ]};
     Code := Some 200%Z;
     Body := [Encoded (JObject [("issues", JArray [JString "A"; JString "B"]);
                                ("total", JNumber 2);
                                ("limit", JNumber 1);
                                ("offset", JNumber 5)])] |}.
Proof.
  pose proof (handleListIssues_ignores_paging
                (fun w => (true, w)) open_issues_only two_issues
                (Beads.Issue_ID (RawStatus := string) (RawPriority := Z))
                digit_Atoi (mkFilter EmptyString EmptyString EmptyString 50 0)
                list_response_json
                (fun _ => false) (fun _ => false) (fun _ => false)
                (fun _ => false) (fun _ => EmptyString)
                (<["status" := ["open"]]> (<["parent" := ["A"]]>
                   (<["search" := ["build"]]> (<["limit" := ["1"]]>
                      (<["offset" := ["5"]]> ∅))))))
    as (_ & _ & Hresp).
  apply (Hresp "[A, B]" _ eq_refl eq_refl eq_refl).
Defined.


(** *** The broker *)

Section BrokerFacts.

Context {Payload error : Type}.
Variable json_Marshal : Payload -> string + error.
Variable NewHeartbeat : Event Payload.

Implicit Types (b : SSEBroker error) (cs : gmap chan_ref channel)
  (order : list chan_ref) (client : chan_ref) (ch : channel) (msg : string).

Lemma select_send_default_open msg ch :
  closed ch = false -> select_send_default msg ch = Returns (offer msg ch).
Proof.
  intros Hopen. unfold select_send_default, send, offer. rewrite Hopen.
  destruct (has_room ch); reflexivity.
Qed.

Lemma select_send_default_closed_flag msg ch ch' :
  select_send_default msg ch = Returns ch' -> closed ch' = closed ch.
Proof.
  unfold select_send_default, send.
  destruct (closed ch) eqn:Hc; [discriminate |].
  destruct (has_room ch); intros [= <-]; simpl; congruence.
Qed.

Lemma offer_closed_flag msg ch : closed (offer msg ch) = closed ch.
Proof. unfold offer. destruct (has_room ch); reflexivity. Qed.

(** The fan-out over open channels, each visited once: it completes, and
    it offers the message to the visited channels and to no other. *)
Lemma fan_out_open order msg cs :
  NoDup order ->
  (forall client, client ∈ order -> is_open cs client) ->
  exists cs', fan_out order msg cs = Returns cs'
    /\ forall client,
         cs' !! client =
         if decide (client ∈ order) then offer msg <$> cs !! client
         else cs !! client.
Proof.
  revert cs. induction order as [| c rest IH]; intros cs Hnd Hopen.
  - exists cs. split; [reflexivity |]. intros client.
    destruct (decide (client ∈ [])) as [Hin | _]; [inversion Hin | reflexivity].
  - apply NoDup_cons in Hnd as [Hc Hnd].
    destruct (Hopen c) as (ch & Hch & Hchopen); [left |].
    cbn [fan_out]. rewrite Hch, (select_send_default_open _ _ Hchopen).
    destruct (IH (<[c := offer msg ch]> cs) Hnd) as (cs' & Hrun & Hcs').
    { intros client Hin. destruct (Hopen client) as (ch1 & Hch1 & Hopen1);
        [right; exact Hin |].
      exists ch1. split; [| exact Hopen1].
      rewrite lookup_insert_ne; [exact Hch1 |]. intros ->. contradiction. }
    exists cs'. split; [exact Hrun |]. intros client. rewrite Hcs'.
    destruct (decide (client = c)) as [-> | Hne].
    + destruct (decide (c ∈ rest)) as [Hin | _]; [contradiction |].
      destruct (decide (c ∈ c :: rest)) as [_ | Hout]; [| exfalso; apply Hout; left].
      rewrite lookup_insert_eq, Hch. reflexivity.
    + rewrite lookup_insert_ne by congruence.
      destruct (decide (client ∈ rest)) as [Hin | Hout];
        destruct (decide (client ∈ c :: rest)) as [Hin' | Hout']; try reflexivity.
      * exfalso. apply Hout'. right. exact Hin.
      * apply elem_of_cons in Hin' as [-> | Hin']; contradiction.
Qed.

(** Whatever the channels, a fan-out that completes closes and opens
    none. *)
Lemma fan_out_keeps_open order msg cs cs' client :
  fan_out order msg cs = Returns cs' -> is_open cs client -> is_open cs' client.
Proof.
  revert cs. induction order as [| c rest IH]; intros cs Hrun Hopen.
  - injection Hrun as <-. exact Hopen.
  - cbn [fan_out] in Hrun. destruct (cs !! c) as [ch |] eqn:Hch.
    + destruct (select_send_default msg ch) as [ch' | |] eqn:Hsel;
        try discriminate.
      apply (IH _ Hrun). destruct Hopen as (ch1 & Hch1 & Hopen1).
      destruct (decide (client = c)) as [-> | Hne].
      * exists ch'. rewrite lookup_insert_eq. split; [reflexivity |].
        rewrite (select_send_default_closed_flag _ _ _ Hsel). congruence.
      * exists ch1. rewrite lookup_insert_ne by congruence. split; assumption.
    + apply (IH _ Hrun Hopen).
Qed.

Lemma visits_NoDup order (m : gmap chan_ref bool) : visits order m -> NoDup order.
Proof. intros Hv. unfold visits in Hv. rewrite Hv. apply NoDup_elements. Qed.

Lemma visits_live order b client :
  visits order (clients b) -> client ∈ order <-> live b client.
Proof.
  intros Hv. unfold visits in Hv. rewrite Hv, elem_of_elements, elem_of_dom.
  reflexivity.
Qed.

(** The broadcast case of the loop where every live subscriber is an open
    channel: the fan-out completes and offers the message to the live
    subscribers only. *)
Lemma loop_broadcast_open b order msg queue :
  live_open b -> visits order (clients b) -> broadcast b = msg :: queue ->
  exists cs',
    loop_broadcast order b = Returns (set_chans (set_broadcast b queue) cs')
    /\ forall client,
         cs' !! client =
         if decide (client ∈ order) then offer msg <$> chans b !! client
         else chans b !! client.
Proof.
  intros Hopen Hvisits Hqueue.
  destruct (fan_out_open order msg (chans b) (visits_NoDup _ _ Hvisits))
    as (cs' & Hrun & Hcs').
  { intros client Hin. apply Hopen, (visits_live order b client Hvisits), Hin. }
  exists cs'. split; [| exact Hcs'].
  unfold loop_broadcast. rewrite Hqueue. cbn [chans set_broadcast].
  rewrite Hrun. reflexivity.
Qed.

(** C3. When the loop takes a message from the broadcast queue, in a state
    where every live subscriber is an open channel, the fan-out completes
    (it neither blocks nor panics), whatever the order in which the
    subscribers are visited: each live subscriber with fewer messages queued
    than its capacity has the message appended to its buffer, each live
    subscriber whose buffer is full keeps its buffer as it was, as does
    every channel that is not live, no channel is made or closed, and the
    live set is unchanged. *)
Theorem fan_out_delivers_or_drops b order msg queue :
  live_open b -> visits order (clients b) -> broadcast b = msg :: queue ->
  exists b', loop_broadcast order b = Returns b'
    /\ clients b' = clients b
    /\ broadcast b' = queue
    /\ dom (chans b') = dom (chans b)
    /\ forall client ch, chans b !! client = Some ch ->
         (is_Some (clients b !! client) ->
          length (buffer ch) < capacity ch ->
            chans b' !! client =
            Some {| buffer := buffer ch ++ [msg]; capacity := capacity ch;
                    closed := closed ch |})
         /\ (is_Some (clients b !! client) ->
             capacity ch <= length (buffer ch) ->
               chans b' !! client = Some ch)
         /\ (clients b !! client = None -> chans b' !! client = Some ch).
Proof.
  intros Hopen Hvisits Hqueue.
  destruct (loop_broadcast_open b order msg queue Hopen Hvisits Hqueue)
    as (cs' & Hrun & Hcs').
  exists (set_chans (set_broadcast b queue) cs').
  split; [exact Hrun |]. split; [reflexivity |]. split; [reflexivity |].
  split.
  { cbn [chans set_chans]. apply set_eq. intros client.
    rewrite !elem_of_dom, Hcs'.
    destruct (decide (client ∈ order)); [| reflexivity].
    rewrite fmap_is_Some. reflexivity. }
  intros client ch Hch. cbn [chans set_chans]. rewrite Hcs', Hch.
  pose proof (visits_live order b client Hvisits) as Hlive.
  unfold live in Hlive.
  destruct (decide (client ∈ order)) as [Hin | Hout]; cbn [fmap option_fmap option_map].
  - split; [| split].
    + intros _ Hroom. unfold offer, has_room.
      rewrite bool_decide_eq_true_2 by exact Hroom. reflexivity.
    + intros _ Hfull. unfold offer, has_room.
      rewrite bool_decide_eq_false_2 by lia. reflexivity.
    + intros Hnot. exfalso. apply Hlive in Hin. rewrite Hnot in Hin.
      destruct Hin as [v Hv]. discriminate Hv.
  - split; [| split].
    + intros Hl. exfalso. apply Hout, Hlive, Hl.
    + intros _ _. reflexivity.
    + intros _. reflexivity.
Qed.

(** Every move keeps the live subscribers open. *)
Lemma step_keeps_live_open b b' :
  live_open b -> step json_Marshal NewHeartbeat b b' -> live_open b'.
Proof.
  intros Hopen Hstep.
  assert (Hcast : forall event b1, Broadcast json_Marshal event b = Returns b1 ->
                                   live_open b1).
  { intros event b1. unfold Broadcast.
    destruct (json_Marshal (Data event)) as [data | err].
    - destruct (bool_decide _); [| discriminate]. intros [= <-]. exact Hopen.
    - intros [= <-]. exact Hopen. }
  destruct Hstep as [b | b client b' H | b client b' H | b event b' H
                    | b order b' _ _ H | b b' _ H | b b' _ H
                    | b client msg b' H | b order b' _ H].
  - exact Hopen.
  - unfold Subscribe in H. cbn [running set_chans] in H.
    destruct (running b); [| discriminate]. injection H as _ <-.
    intros c Hc. unfold live, loop_register in Hc. cbn in Hc.
    unfold loop_register, is_open. cbn.
    destruct (decide (c = fresh (dom (chans b)))) as [-> | Hne].
    + eexists. rewrite lookup_insert_eq. split; reflexivity.
    + rewrite lookup_insert_ne in Hc by congruence.
      rewrite lookup_insert_ne by congruence. apply Hopen, Hc.
  - unfold Unsubscribe in H. destruct (running b); [| discriminate].
    unfold loop_unregister in H.
    destruct (clients b !! client) eqn:Hcl.
    + cbn [chans set_clients] in H.
      destruct (chans b !! client) as [ch |] eqn:Hch; [| discriminate].
      destruct (close ch) as [ch' | |]; try discriminate.
      injection H as <-. intros c Hc. unfold live in Hc. cbn in Hc.
      unfold is_open. cbn.
      destruct (decide (c = client)) as [-> | Hne].
      * rewrite lookup_delete_eq in Hc. destruct Hc as [? Hc]. discriminate.
      * rewrite lookup_delete_ne in Hc by congruence.
        rewrite lookup_insert_ne by congruence. apply Hopen, Hc.
    + injection H as <-. exact Hopen.
  - apply (Hcast _ _ H).
  - unfold loop_broadcast in H. destruct (broadcast b) as [| msg queue];
      [discriminate |].
    cbn [chans set_broadcast] in H.
    destruct (fan_out order msg (chans b)) as [cs' | |] eqn:Hrun;
      try discriminate.
    injection H as <-. intros c Hc.
    apply (fan_out_keeps_open _ _ _ _ _ Hrun), Hopen, Hc.
  - apply (Hcast _ _ H).
  - unfold loop_done in H. destruct (done b); [| discriminate].
    injection H as <-. exact Hopen.
  - unfold receive in H. destruct (chans b !! client) as [ch |] eqn:Hch;
      [| discriminate].
    destruct (buffer ch) as [| m rest]; [discriminate |].
    injection H as _ <-. intros c Hc. unfold is_open. cbn.
    destruct (Hopen c Hc) as (ch1 & Hch1 & Hopen1).
    destruct (decide (c = client)) as [-> | Hne].
    + eexists. rewrite lookup_insert_eq. split; [reflexivity |].
      cbn. congruence.
    + exists ch1. rewrite lookup_insert_ne by congruence. split; assumption.
  - unfold Stop in H. destruct (done b); [discriminate |].
    cbn [chans set_done] in H.
    destruct (close_all order (chans b)) as [cs' | |]; try discriminate.
    injection H as <-. intros c [v Hc]. cbn in Hc.
    rewrite lookup_empty in Hc. discriminate.
Qed.

(** In every state the broker can reach, the live subscribers are open
    channels. *)
Lemma reachable_live_open b :
  reachable json_Marshal NewHeartbeat b -> live_open b.
Proof.
  induction 1 as [| b b' _ IH Hstep].
  - intros c [v Hc]. cbn in Hc. rewrite lookup_empty in Hc. discriminate.
  - apply (step_keeps_live_open b b' IH Hstep).
Qed.

(** X14. In every state the broker can reach through [Start],
    [Subscribe], [Unsubscribe], [Broadcast], [Stop], the loop's cases and
    the handlers' receives, the broadcast case of the loop completes when a
    message is queued: the fan-out never blocks and never sends on a closed
    channel, whatever the order of the visit. *)
Corollary reachable_fan_out_completes b order msg queue :
  reachable json_Marshal NewHeartbeat b ->
  visits order (clients b) -> broadcast b = msg :: queue ->
  exists b', loop_broadcast order b = Returns b'.
Proof.
  intros Hreach Hvisits Hqueue.
  destruct (loop_broadcast_open b order msg queue
              (reachable_live_open b Hreach) Hvisits Hqueue) as (cs' & Hrun & _).
  eexists. exact Hrun.
Qed.

(** **** Subscribing, unsubscribing and stopping *)

(** A channel after [close]. *)
Definition shut (ch : channel) : channel :=
  {| buffer := buffer ch; capacity := capacity ch; closed := true |}.

Lemma close_open ch : closed ch = false -> close ch = Returns (shut ch).
Proof. intros Hopen. unfold close. rewrite Hopen. reflexivity. Qed.

(** Closing open channels, each visited once: it completes, and it closes
    the visited channels and no other. *)
Lemma close_all_open order cs :
  NoDup order ->
  (forall client, client ∈ order -> is_open cs client) ->
  exists cs', close_all order cs = Returns cs'
    /\ forall client,
         cs' !! client =
         if decide (client ∈ order) then shut <$> cs !! client
         else cs !! client.
Proof.
  revert cs. induction order as [| c rest IH]; intros cs Hnd Hopen.
  - exists cs. split; [reflexivity |]. intros client.
    destruct (decide (client ∈ [])) as [Hin | _]; [inversion Hin | reflexivity].
  - apply NoDup_cons in Hnd as [Hc Hnd].
    destruct (Hopen c) as (ch & Hch & Hchopen); [left |].
    cbn [close_all]. rewrite Hch, (close_open _ Hchopen).
    destruct (IH (<[c := shut ch]> cs) Hnd) as (cs' & Hrun & Hcs').
    { intros client Hin. destruct (Hopen client) as (ch1 & Hch1 & Hopen1);
        [right; exact Hin |].
      exists ch1. split; [| exact Hopen1].
      rewrite lookup_insert_ne; [exact Hch1 |]. intros ->. contradiction. }
    exists cs'. split; [exact Hrun |]. intros client. rewrite Hcs'.
    destruct (decide (client = c)) as [-> | Hne].
    + destruct (decide (c ∈ rest)) as [Hin | _]; [contradiction |].
      destruct (decide (c ∈ c :: rest)) as [_ | Hout]; [| exfalso; apply Hout; left].
      rewrite lookup_insert_eq, Hch. reflexivity.
    + rewrite lookup_insert_ne by congruence.
      destruct (decide (client ∈ rest)) as [Hin | Hout];
        destruct (decide (client ∈ c :: rest)) as [Hin' | Hout']; try reflexivity.
      * exfalso. apply Hout'. right. exact Hin.
      * apply elem_of_cons in Hin' as [-> | Hin']; contradiction.
Qed.

Lemma live_has_channel b client :
  live_open b -> live b client -> client ∈ dom (chans b).
Proof.
  intros Hopen Hlive. destruct (Hopen client Hlive) as (ch & Hch & _).
  apply elem_of_dom. exists ch. exact Hch.
Qed.

Lemma fresh_not_live b :
  live_open b -> ~ live b (fresh (dom (chans b))).
Proof.
  intros Hopen Hlive. apply (is_fresh (dom (chans b))).
  apply (live_has_channel b _ Hopen Hlive).
Qed.

(** X15. Where every live subscriber is an open channel (every reachable
    state) and the loop runs, [Unsubscribe] completes for any endpoint: the
    endpoint leaves the live set and, if it was live, its channel is
    closed with its queued messages kept; no other channel and no other
    member of the live set changes. *)
Theorem Unsubscribe_closes_once b client :
  live_open b -> running b = true ->
  exists b', Unsubscribe client b = Returns b'
    /\ clients b' = delete client (clients b)
    /\ ~ live b' client
    /\ (forall c, c <> client -> chans b' !! c = chans b !! c)
    /\ (live b client ->
        exists ch, chans b !! client = Some ch /\ closed ch = false
                   /\ chans b' !! client = Some (shut ch))
    /\ (~ live b client -> chans b' = chans b).
Proof.
  intros Hopen Hrun. unfold Unsubscribe, loop_unregister. rewrite Hrun.
  destruct (clients b !! client) as [v |] eqn:Hcl.
  - destruct (Hopen client) as (ch & Hch & Hchopen); [exists v; exact Hcl |].
    cbn [chans set_clients]. rewrite Hch, (close_open _ Hchopen).
    eexists. split; [reflexivity |]. cbn.
    split; [reflexivity |]. split.
    { intros [x Hx]. cbn in Hx. rewrite lookup_delete_eq in Hx. discriminate. }
    split.
    { intros c Hne. rewrite lookup_insert_ne by congruence. reflexivity. }
    split.
    + intros _. exists ch. rewrite lookup_insert_eq. repeat split; assumption.
    + intros Hnot. exfalso. apply Hnot. exists v. exact Hcl.
  - eexists. split; [reflexivity |]. cbn.
    split; [rewrite delete_id by exact Hcl; reflexivity |]. split.
    { intros [x Hx]. cbn in Hx. congruence. }
    split; [reflexivity |]. split.
    + intros [x Hx]. congruence.
    + reflexivity.
Qed.

(** X16. Where every live subscriber is an open channel and [done] is not
    closed yet, [Stop] completes whatever the order in which the
    subscribers are visited: every live subscriber's channel is closed with
    its queued messages kept, the other channels are untouched, and the
    live set is empty.  A second [Stop] panics, on closing [done] again. *)
Theorem Stop_closes_every_subscriber b order :
  live_open b -> done b = false -> visits order (clients b) ->
  exists b', Stop order b = Returns b'
    /\ clients b' = ∅
    /\ done b' = true
    /\ (forall c ch, chans b !! c = Some ch ->
          chans b' !! c = Some (if decide (live b c) then shut ch else ch))
    /\ (forall order', Stop order' b' = Panics).
Proof.
  intros Hopen Hdone Hvisits.
  destruct (close_all_open order (chans b) (visits_NoDup _ _ Hvisits))
    as (cs' & Hrun & Hcs').
  { intros c Hin. apply Hopen, (visits_live order b c Hvisits), Hin. }
  exists (set_clients (set_chans (set_done b true) cs') ∅).
  unfold Stop. rewrite Hdone. cbn [chans set_done]. rewrite Hrun.
  split; [reflexivity |]. split; [reflexivity |]. split; [reflexivity |].
  split; [| reflexivity].
  intros c ch Hch. cbn [chans set_chans set_clients]. rewrite Hcs', Hch.
  pose proof (visits_live order b c Hvisits) as Hlive.
  destruct (decide (c ∈ order)) as [Hin | Hout];
    destruct (decide (live b c)) as [Hl | Hnl]; try reflexivity.
  - exfalso. apply Hnl, Hlive, Hin.
  - exfalso. apply Hout, Hlive, Hl.
Qed.

(** X17. Where every live subscriber is an open channel and the loop runs,
    [Subscribe] returns a channel that was not live, is now live, is open
    and empty with room for ten messages, and leaves the other subscribers
    as they were; [Unsubscribe] on that channel right after completes,
    restores the live set and leaves the channel closed. *)
Theorem Subscribe_then_Unsubscribe b :
  live_open b -> running b = true ->
  exists client b1 b2,
    Subscribe b = Returns (client, b1)
    /\ ~ live b client
    /\ live b1 client
    /\ chans b1 !! client = Some (make_chan client_capacity)
    /\ (forall c, live b c -> live b1 c /\ chans b1 !! c = chans b !! c)
    /\ Unsubscribe client b1 = Returns b2
    /\ clients b2 = clients b
    /\ chans b2 !! client = Some (shut (make_chan client_capacity)).
Proof.
  intros Hopen Hrun.
  set (client := fresh (dom (chans b))).
  pose proof (fresh_not_live b Hopen) as Hfresh. fold client in Hfresh.
  assert (Hnone : clients b !! client = None).
  { destruct (clients b !! client) as [v |] eqn:Hcl; [| reflexivity].
    exfalso. apply Hfresh. exists v. exact Hcl. }
  eexists client, _, _.
  split.
  { unfold Subscribe. fold client. cbn [running set_chans]. rewrite Hrun.
    reflexivity. }
  split; [exact Hfresh |].
  split.
  { unfold live, loop_register. cbn. rewrite lookup_insert_eq. eauto. }
  split.
  { unfold loop_register. cbn. apply lookup_insert_eq. }
  split.
  { intros c Hc. assert (Hne : c <> client) by (intros ->; contradiction).
    unfold live, loop_register. cbn.
    rewrite !lookup_insert_ne by congruence. split; [exact Hc | reflexivity]. }
  split.
  { unfold Unsubscribe, loop_unregister, loop_register. cbn.
    rewrite Hrun, !lookup_insert_eq. cbn. reflexivity. }
  split.
  - cbn. apply delete_insert_id, Hnone.
  - cbn. apply lookup_insert_eq.
Qed.

(** **** Closed channels and the order of delivery *)

(** X18. A closed channel never receives again: where every live
    subscriber is an open channel, no move of the system (no method call,
    no case of the loop, no receive) adds a message to a channel that is
    closed; the channel stays closed, and its buffer after the move is a
    tail of its buffer before. *)
Theorem closed_channel_gets_nothing b b' (c : chan_ref) ch :
  live_open b -> step json_Marshal NewHeartbeat b b' ->
  chans b !! c = Some ch -> closed ch = true ->
  exists ch' taken,
    chans b' !! c = Some ch'
    /\ closed ch' = true
    /\ buffer ch = (taken ++ buffer ch')%list.
Proof.
  intros Hopen Hstep Hch Hclosed.
  assert (Hnotlive : ~ live b c).
  { intros Hlive. destruct (Hopen c Hlive) as (ch1 & Hch1 & Hopen1). congruence. }
  assert (Hsame : chans b' !! c = Some ch ->
                  exists ch' taken, chans b' !! c = Some ch'
                    /\ closed ch' = true /\ buffer ch = (taken ++ buffer ch')%list).
  { intros Heq. exists ch, []. repeat split; assumption. }
  assert (Hcast : forall event b1, Broadcast json_Marshal event b = Returns b1 ->
                                   chans b1 = chans b).
  { intros event b1. unfold Broadcast.
    destruct (json_Marshal (Data event)) as [data | err].
    - destruct (bool_decide _); [| discriminate]. intros [= <-]. reflexivity.
    - intros [= <-]. reflexivity. }
  destruct Hstep as [b | b client b' H | b client b' H | b event b' H
                    | b order b' _ Hvisits H | b b' _ H | b b' _ H
                    | b client msg b' H | b order b' Hvisits H].
  - apply Hsame. exact Hch.
  - unfold Subscribe in H. cbn [running set_chans] in H.
    destruct (running b); [| discriminate]. injection H as _ <-.
    apply Hsame. unfold loop_register. cbn.
    rewrite lookup_insert_ne; [exact Hch |].
    intros Heq. apply (is_fresh (dom (chans b))). rewrite Heq.
    apply elem_of_dom. exists ch. exact Hch.
  - unfold Unsubscribe in H. destruct (running b); [| discriminate].
    unfold loop_unregister in H.
    destruct (clients b !! client) as [v |] eqn:Hcl.
    + cbn [chans set_clients] in H.
      destruct (chans b !! client) as [ch1 |] eqn:Hch1; [| discriminate].
      destruct (close ch1) as [ch1' | |]; try discriminate.
      injection H as <-. apply Hsame. cbn.
      rewrite lookup_insert_ne; [exact Hch |].
      intros ->. apply Hnotlive. exists v. exact Hcl.
    + injection H as <-. apply Hsame. exact Hch.
  - apply Hsame. rewrite (Hcast _ _ H). exact Hch.
  - unfold loop_broadcast in H. destruct (broadcast b) as [| msg queue];
      [discriminate |].
    cbn [chans set_broadcast] in H.
    destruct (fan_out_open order msg (chans b) (visits_NoDup _ _ Hvisits))
      as (cs' & Hrun & Hcs').
    { intros x Hin. apply Hopen, (visits_live order b x Hvisits), Hin. }
    rewrite Hrun in H. injection H as <-. apply Hsame. cbn. rewrite Hcs'.
    destruct (decide (c ∈ order)) as [Hin | _]; [| exact Hch].
    exfalso. apply Hnotlive, (visits_live order b c Hvisits), Hin.
  - apply Hsame. rewrite (Hcast _ _ H). exact Hch.
  - unfold loop_done in H. destruct (done b); [| discriminate].
    injection H as <-. apply Hsame. exact Hch.
  - unfold receive in H. destruct (chans b !! client) as [ch1 |] eqn:Hch1;
      [| discriminate].
    destruct (buffer ch1) as [| m rest] eqn:Hbuf; [discriminate |].
    injection H as _ <-. cbn.
    destruct (decide (c = client)) as [-> | Hne].
    + rewrite lookup_insert_eq. assert (ch1 = ch) as -> by congruence.
      eexists _, [m]. split; [reflexivity |]. split; [exact Hclosed |].
      rewrite Hbuf. reflexivity.
    + apply Hsame. cbn. rewrite lookup_insert_ne by congruence. exact Hch.
  - unfold Stop in H. destruct (done b); [discriminate |].
    cbn [chans set_done] in H.
    destruct (close_all_open order (chans b) (visits_NoDup _ _ Hvisits))
      as (cs' & Hrun & Hcs').
    { intros x Hin. apply Hopen, (visits_live order b x Hvisits), Hin. }
    rewrite Hrun in H. injection H as <-. apply Hsame. cbn. rewrite Hcs'.
    destruct (decide (c ∈ order)) as [Hin | _]; [| exact Hch].
    exfalso. apply Hnotlive, (visits_live order b c Hvisits), Hin.
Qed.

(** X19. Broadcasts reach a subscriber in the order of the calls: two
    events broadcast one after the other on an empty queue, then fanned
    out by two rounds of the loop, leave a live subscriber with room for
    two with the first message queued before the second, after what it
    held, and the queue empty again. *)
Theorem broadcasts_arrive_in_order (event1 event2 : Event Payload)
    (data1 data2 : string) b order client ch :
  json_Marshal (Data event1) = inl data1 ->
  json_Marshal (Data event2) = inl data2 ->
  live_open b -> visits order (clients b) -> broadcast b = [] ->
  live b client -> chans b !! client = Some ch ->
  length (buffer ch) + 2 <= capacity ch ->
  exists b1 b2 b3 b4,
    Broadcast json_Marshal event1 b = Returns b1
    /\ Broadcast json_Marshal event2 b1 = Returns b2
    /\ loop_broadcast order b2 = Returns b3
    /\ loop_broadcast order b3 = Returns b4
    /\ broadcast b4 = []
    /\ buffer <$> chans b4 !! client =
         Some (buffer ch ++ [sse_message (Event_Type event1) data1;
                             sse_message (Event_Type event2) data2])%list.
Proof.
  intros Hd1 Hd2 Hopen Hvisits Hempty Hlive Hch Hroom.
  set (m1 := sse_message (Event_Type event1) data1).
  set (m2 := sse_message (Event_Type event2) data2).
  set (b1 := set_broadcast b [m1]).
  set (b2 := set_broadcast b1 [m1; m2]).
  destruct (loop_broadcast_open b2 order m1 [m2] Hopen Hvisits eq_refl)
    as (cs3 & Hrun3 & Hcs3).
  set (b3 := set_chans (set_broadcast b2 [m2]) cs3) in *.
  assert (Hopen3 : live_open b3).
  { intros x Hx. destruct (Hopen x Hx) as (chx & Hchx & Hopenx).
    exists (offer m1 chx). split; [| rewrite offer_closed_flag; exact Hopenx].
    cbn. rewrite Hcs3. cbn.
    destruct (decide (x ∈ order)) as [_ | Hout].
    - rewrite Hchx. reflexivity.
    - exfalso. apply Hout, (visits_live order b x Hvisits), Hx. }
  destruct (loop_broadcast_open b3 order m2 [] Hopen3 Hvisits eq_refl)
    as (cs4 & Hrun4 & Hcs4).
  exists b1, b2, b3, (set_chans (set_broadcast b3 []) cs4).
  split.
  { unfold Broadcast. rewrite Hd1, Hempty. reflexivity. }
  split.
  { unfold Broadcast. rewrite Hd2. reflexivity. }
  split; [exact Hrun3 |]. split; [exact Hrun4 |]. split; [reflexivity |].
  cbn [chans set_chans]. rewrite Hcs4. cbn [chans b3 set_chans].
  rewrite Hcs3. cbn [chans b2 b1 set_broadcast]. rewrite Hch.
  destruct (decide (client ∈ order)) as [_ | Hout].
  - cbn. unfold offer at 2. unfold has_room.
    rewrite bool_decide_eq_true_2 by lia.
    unfold offer, has_room. cbn [buffer capacity enqueue].
    rewrite bool_decide_eq_true_2 by (rewrite length_app; cbn; lia).
    cbn. rewrite <- app_assoc. reflexivity.
  - exfalso. apply Hout, (visits_live order b client Hvisits), Hlive.
Qed.

(** C4. While the loop runs, [Unsubscribe] on an endpoint that is not in
    the live set completes without a panic: the endpoint is not closed (no
    channel changes at all) and the live set is as it was.  The endpoint
    may be any channel, closed ones included. *)
Theorem Unsubscribe_not_live b client :
  running b = true -> ~ live b client ->
  exists b', Unsubscribe client b = Returns b'
    /\ clients b' = clients b
    /\ chans b' = chans b
    /\ broadcast b' = broadcast b.
Proof.
  intros Hrun Hnot. unfold Unsubscribe, loop_unregister. rewrite Hrun.
  destruct (clients b !! client) as [v |] eqn:Hcl.
  - exfalso. apply Hnot. exists v. exact Hcl.
  - eexists. split; [reflexivity |]. repeat split.
Qed.

(** C2. [Broadcast] has no result to carry an error and never panics.
    When the payload marshals to [data], the message it offers to the
    broadcast queue is the bytes "event: ", the type, a newline, "data: ",
    [data] and two newlines: with room in the queue the message is appended
    to it and nothing else changes, with a full queue the caller waits; and
    once the loop takes the message from an otherwise empty queue, a live
    subscriber with room has exactly these bytes appended to its buffer.
    When marshalling fails, [Broadcast] returns with one more line logged,
    the marshal error, and the queue, every channel and the live set are as
    they were: no message is submitted. *)
Theorem Broadcast_formats_or_drops (event : Event Payload) b :
  (forall data, json_Marshal (Data event) = inl data ->
     let msg := "event: " +:+ Event_Type event +:+ nl +:+
                "data: " +:+ data +:+ nl +:+ nl in
     (length (broadcast b) < 100 ->
        Broadcast json_Marshal event b =
        Returns {| chans := chans b; clients := clients b;
                   broadcast := broadcast b ++ [msg];
                   done := done b; running := running b;
                   logged := logged b |})
     /\ (100 <= length (broadcast b) ->
           Broadcast json_Marshal event b = Blocks)
     /\ (forall order client ch,
           broadcast b = [] -> live_open b -> visits order (clients b) ->
           is_Some (clients b !! client) -> chans b !! client = Some ch ->
           length (buffer ch) < capacity ch ->
           exists b1 b2,
             Broadcast json_Marshal event b = Returns b1
             /\ loop_broadcast order b1 = Returns b2
             /\ chans b2 !! client =
                  Some {| buffer := buffer ch ++ [msg];
                          capacity := capacity ch; closed := closed ch |}))
  /\ (forall err, json_Marshal (Data event) = inr err ->
        Broadcast json_Marshal event b =
        Returns {| chans := chans b; clients := clients b;
                   broadcast := broadcast b;
                   done := done b; running := running b;
                   logged := logged b ++ [LogMarshalError err] |})
  /\ Broadcast json_Marshal event b <> Panics.
Proof.
  split; [| split].
  - intros data Hdata msg.
    assert (Hroom : length (broadcast b) < 100 ->
                    Broadcast json_Marshal event b =
                    Returns (set_broadcast b (broadcast b ++ [msg]))).
    { intros Hlt. unfold Broadcast. rewrite Hdata.
      rewrite bool_decide_eq_true_2 by exact Hlt. reflexivity. }
    split; [exact Hroom |]. split.
    + intros Hfull. unfold Broadcast. rewrite Hdata.
      rewrite bool_decide_eq_false_2 by (unfold broadcast_capacity; lia).
      reflexivity.
    + intros order client ch Hempty Hopen Hvisits Hlive Hch Hhas.
      set (b1 := set_broadcast b (broadcast b ++ [msg])).
      destruct (loop_broadcast_open b1 order msg [] Hopen Hvisits)
        as (cs' & Hrun & Hcs').
      { unfold b1. cbn. rewrite Hempty. reflexivity. }
      exists b1, (set_chans (set_broadcast b1 []) cs').
      split; [| split; [exact Hrun |]].
      * apply Hroom. rewrite Hempty. cbn. lia.
      * cbn [chans set_chans]. rewrite Hcs'. cbn [chans b1 set_broadcast].
        rewrite Hch.
        destruct (decide (client ∈ order)) as [_ | Hout].
        -- cbn. unfold offer, has_room.
           rewrite bool_decide_eq_true_2 by exact Hhas. reflexivity.
        -- exfalso. apply Hout, (visits_live order b client Hvisits), Hlive.
  - intros err Herr. unfold Broadcast. rewrite Herr. reflexivity.
  - unfold Broadcast. destruct (json_Marshal (Data event)); [| discriminate].
    destruct (bool_decide _); discriminate.
Qed.

End BrokerFacts.

(** *** The events handler *)

Section EventsHandlerFacts.

Context {Payload error : Type}.
Variable json_Marshal : Payload -> string + error.
Variable NewHeartbeat : Event Payload.







End EventsHandlerFacts.

(** *** The broker on concrete states *)

(** Payloads taken to be their own JSON text, the empty payload standing
    for a value that does not marshal. *)
Definition text_Marshal (payload : string) : string + string :=
  if String.eqb payload EmptyString then inr "json: unsupported value"
  else inl payload.

Definition heartbeat_event : Event string := mkEvent "heartbeat" "null".

(** A running broker with two subscribers, the first with an empty
    buffer, the second with a full one, and one message to fan out. *)
Definition full_chan : channel :=
  {| buffer := replicate 10 (sse_message "heartbeat" "null");
     capacity := client_capacity; closed := false |}.

Definition two_clients : SSEBroker string :=
  {| chans := <[1 := full_chan]> (<[0 := make_chan client_capacity]> ∅);
     clients := <[1 := true]> (<[0 := true]> ∅);
     broadcast := [sse_message "issue_created" "{}"];
     done := false; running := true; logged := [] |}.

Lemma two_clients_live_open : live_open two_clients.
Proof.
  intros c [v Hc]. unfold two_clients in *. cbn in *.
  destruct (decide (c = 1)) as [-> | H1].
  { exists full_chan. split; reflexivity. }
  destruct (decide (c = 0)) as [-> | H0].
  { exists (make_chan client_capacity). split; reflexivity. }
  rewrite !lookup_insert_ne, lookup_empty in Hc by congruence. discriminate.
Qed.

(** C3 at that broker, whichever subscriber is visited first: the first
    subscriber's buffer holds the message and nothing else, the second
    keeps its ten heartbeats and gets no eleventh, and the queue is
    empty. *)
Lemma fan_out_delivers_or_drops_witness :
  let issue_created :=
    "event: issue_created" +:+ nl +:+ "data: {}" +:+ nl +:+ nl in
  let heartbeat :=
    "event: heartbeat" +:+ nl +:+ "data: null" +:+ nl +:+ nl in
  let delivered order :=
    exists b', loop_broadcast order two_clients = Returns b'
      /\ broadcast b' = []
      /\ chans b' !! 0 =
           Some {| buffer := [issue_created]; capacity := 10; closed := false |}
      /\ chans b' !! 1 =
           Some {| buffer := replicate 10 heartbeat; capacity := 10;
                   closed := false |} in
  delivered [0; 1] /\ delivered [1; 0].
Proof.
  intros issue_created heartbeat delivered.
  assert (Hboth : forall order, order ≡ₚ [1; 0] -> delivered order).
  { intros order Horder.
    destruct (fan_out_delivers_or_drops two_clients order issue_created []
                two_clients_live_open)
      as (b' & Hrun & _ & Hqueue & _ & Hch).
    - unfold visits. rewrite Horder. vm_compute. reflexivity.
    - reflexivity.
    - exists b'. split; [exact Hrun |]. split; [exact Hqueue |]. split.
      + destruct (Hch 0 (make_chan client_capacity) eq_refl) as (Hroom & _).
        apply Hroom; [eexists; reflexivity |].
        cbn. unfold client_capacity. lia.
      + destruct (Hch 1 full_chan eq_refl) as (_ & Hfull & _).
        apply Hfull; [eexists; reflexivity |].
        cbn. unfold client_capacity. lia. }
  split; apply Hboth; [apply perm_swap | reflexivity].
Defined.

(** C4 at a started broker without subscribers and an endpoint it never
    saw. *)
Lemma Unsubscribe_not_live_witness :
  exists b', Unsubscribe 3 (Start (NewSSEBroker (error := string))) = Returns b'
    /\ clients b' = ∅ /\ chans b' = ∅.
Proof.
  destruct (Unsubscribe_not_live (Start (NewSSEBroker (error := string))) 3)
    as (b' & Hrun & Hcl & Hch & _).
  - reflexivity.
  - intros [v Hv]. cbn in Hv. rewrite lookup_empty in Hv. discriminate.
  - exists b'. split; [exact Hrun |]. split; [exact Hcl | exact Hch].
Defined.

(** Unsubscribing the same endpoint twice: the first call closes it, the
    second finds it gone from the live set and leaves it alone. *)
Example Unsubscribe_twice :
  let b0 := Start (NewSSEBroker (error := string)) in
  exists client b1 b2 b3,
    Subscribe b0 = Returns (client, b1)
    /\ Unsubscribe client b1 = Returns b2
    /\ Unsubscribe client b2 = Returns b3
    /\ chans b3 = chans b2 /\ clients b3 = ∅.
Proof.
  intros b0. eexists _, _, _, _.
  split; [reflexivity |]. split; [vm_compute; reflexivity |].
  split; [vm_compute; reflexivity |]. split; vm_compute; reflexivity.
Qed.

(** C2 at an issue_created event on a new broker, and at a payload that
    does not marshal on the broker with two subscribers: the message
    waiting in the queue and both buffers stay as they are, and the log
    gets its first line. *)
Lemma Broadcast_formats_or_drops_witness :
  let issue_created :=
    "event: issue_created" +:+ nl +:+ "data: {}" +:+ nl +:+ nl in
  let heartbeat :=
    "event: heartbeat" +:+ nl +:+ "data: null" +:+ nl +:+ nl in
  Broadcast (error := string) text_Marshal (mkEvent "issue_created" "{}")
    NewSSEBroker =
    Returns {| chans := ∅; clients := ∅; broadcast := [issue_created];
               done := false; running := false; logged := [] |}
  /\ Broadcast text_Marshal (mkEvent "issue_updated" EmptyString) two_clients =
       Returns
         {| chans :=
              <[1 := {| buffer := replicate 10 heartbeat; capacity := 10;
                        closed := false |}]>
                (<[0 := {| buffer := []; capacity := 10; closed := false |}]> ∅);
            clients := <[1 := true]> (<[0 := true]> ∅);
            broadcast := [issue_created];
            done := false; running := true;
            logged := [LogMarshalError "json: unsupported value"] |}.
Proof.
  intros issue_created heartbeat. split.
  - destruct (Broadcast_formats_or_drops text_Marshal
                (mkEvent "issue_created" "{}") (NewSSEBroker (error := string)))
      as (Hok & _ & _).
    destruct (Hok "{}" eq_refl) as (Hroom & _ & _).
    apply Hroom. cbn. lia.
  - destruct (Broadcast_formats_or_drops text_Marshal
                (mkEvent "issue_updated" EmptyString) two_clients)
      as (_ & Herr & _).
    apply (Herr "json: unsupported value"). reflexivity.
Defined.

(** A started broker after one [Subscribe], and after an issue_created
    event was broadcast on it. *)
Definition one_subscriber : SSEBroker string :=
  match Subscribe (Start NewSSEBroker) with
  | Returns (_, b) => b
  | _ => NewSSEBroker
  end.

Definition one_pending : SSEBroker string :=
  match Broadcast text_Marshal (mkEvent "issue_created" "{}") one_subscriber with
  | Returns b => b
  | _ => one_subscriber
  end.

Lemma one_subscriber_reachable :
  reachable text_Marshal heartbeat_event one_subscriber.
Proof.
  eapply reachable_step.
  - eapply reachable_step; [apply reachable_new | apply step_Start].
  - apply (step_Subscribe _ _ _ 0). reflexivity.
Qed.

Lemma one_pending_reachable :
  reachable text_Marshal heartbeat_event one_pending.
Proof.
  eapply reachable_step; [apply one_subscriber_reachable |].
  apply (step_Broadcast _ _ _ (mkEvent "issue_created" "{}")). reflexivity.
Qed.

(** X14 at that broker: the loop's broadcast case completes. *)
Lemma reachable_fan_out_completes_witness :
  exists b', loop_broadcast [0] one_pending = Returns b'.
Proof.
  apply (reachable_fan_out_completes text_Marshal heartbeat_event one_pending
           [0] (sse_message "issue_created" "{}") [] one_pending_reachable).
  - unfold visits. vm_compute. reflexivity.
  - reflexivity.
Defined.

(** X15 at the broker with two subscribers: unsubscribing the second
    closes its channel and keeps its ten messages. *)
Lemma Unsubscribe_closes_once_witness :
  exists b', Unsubscribe 1 two_clients = Returns b'
    /\ chans b' !! 1 = Some (shut full_chan)
    /\ chans b' !! 0 = Some (make_chan client_capacity).
Proof.
  destruct (Unsubscribe_closes_once two_clients 1 two_clients_live_open eq_refl)
    as (b' & Hrun & _ & _ & Hothers & Hclosed & _).
  exists b'. split; [exact Hrun |]. split.
  - destruct Hclosed as (ch & Hch & _ & Hshut); [eexists; reflexivity |].
    injection Hch as <-. exact Hshut.
  - etransitivity; [apply (Hothers 0); discriminate | reflexivity].
Defined.

(** X16 at the same broker. *)
Lemma Stop_closes_every_subscriber_witness :
  exists b', Stop [0; 1] two_clients = Returns b'
    /\ clients b' = ∅
    /\ chans b' !! 1 = Some (shut full_chan)
    /\ Stop [] b' = Panics.
Proof.
  destruct (Stop_closes_every_subscriber two_clients [0; 1]
              two_clients_live_open eq_refl)
    as (b' & Hrun & Hclients & _ & Hchans & Hagain).
  - unfold visits. vm_compute. apply perm_swap.
  - exists b'. split; [exact Hrun |]. split; [exact Hclients |]. split.
    + etransitivity; [apply (Hchans 1 full_chan eq_refl) |].
      destruct (decide (live two_clients 1)) as [_ | Hnot]; [reflexivity |].
      exfalso. apply Hnot. eexists. reflexivity.
    + apply Hagain.
Defined.

(** X17 at a started broker without subscribers. *)
Lemma Subscribe_then_Unsubscribe_witness :
  exists client b1 b2,
    Subscribe (Start (NewSSEBroker (error := string))) = Returns (client, b1)
    /\ Unsubscribe client b1 = Returns b2
    /\ clients b2 = ∅.
Proof.
  destruct (Subscribe_then_Unsubscribe (Start (NewSSEBroker (error := string))))
    as (client & b1 & b2 & Hsub & _ & _ & _ & _ & Hunsub & Hclients & _).
  - intros c [v Hv]. cbn in Hv. rewrite lookup_empty in Hv. discriminate.
  - reflexivity.
  - exists client, b1, b2. split; [exact Hsub |]. split; [exact Hunsub |].
    exact Hclients.
Defined.

(** A running broker whose second channel was closed by an unsubscribe,
    with one message to fan out. *)
Definition second_closed : SSEBroker string :=
  {| chans := <[1 := shut full_chan]> (<[0 := make_chan client_capacity]> ∅);
     clients := <[0 := true]> ∅;
     broadcast := [sse_message "issue_created" "{}"];
     done := false; running := true; logged := [] |}.

Definition second_closed_after : SSEBroker string :=
  match loop_broadcast [0] second_closed with
  | Returns b => b
  | _ => second_closed
  end.

Lemma second_closed_live_open : live_open second_closed.
Proof.
  intros c [v Hc]. unfold second_closed in *. cbn in *.
  destruct (decide (c = 0)) as [-> | H0].
  { exists (make_chan client_capacity). split; reflexivity. }
  rewrite lookup_insert_ne, lookup_empty in Hc by congruence. discriminate.
Qed.

(** X18 at that broker and the broadcast case of the loop: the closed
    channel keeps its ten messages and gets no eleventh. *)
Lemma closed_channel_gets_nothing_witness :
  exists ch' taken,
    chans second_closed_after !! 1 = Some ch'
    /\ closed ch' = true
    /\ buffer (shut full_chan) = (taken ++ buffer ch')%list.
Proof.
  apply (closed_channel_gets_nothing text_Marshal heartbeat_event
           second_closed second_closed_after 1 (shut full_chan)
           second_closed_live_open).
  - apply (step_loop_broadcast _ _ _ [0]).
    + reflexivity.
    + unfold visits. vm_compute. reflexivity.
    + reflexivity.
  - reflexivity.
  - reflexivity.
Defined.

(** X19 at the broker with one subscriber: an issue_created event, then an
    issue_updated event. *)
Lemma broadcasts_arrive_in_order_witness :
  exists b1 b2 b3 b4,
    Broadcast text_Marshal (mkEvent "issue_created" "{}") one_subscriber = Returns b1
    /\ Broadcast text_Marshal (mkEvent "issue_updated" "{}") b1 = Returns b2
    /\ loop_broadcast [0] b2 = Returns b3
    /\ loop_broadcast [0] b3 = Returns b4
    /\ buffer <$> chans b4 !! 0 =
         Some [sse_message "issue_created" "{}"; sse_message "issue_updated" "{}"].
Proof.
  destruct (broadcasts_arrive_in_order text_Marshal
              (mkEvent "issue_created" "{}") (mkEvent "issue_updated" "{}")
              "{}" "{}" one_subscriber [0] 0 (make_chan client_capacity))
    as (b1 & b2 & b3 & b4 & H1 & H2 & H3 & H4 & _ & Hbuf).
  - reflexivity.
  - reflexivity.
  - apply (reachable_live_open text_Marshal heartbeat_event),
      one_subscriber_reachable.
  - unfold visits. vm_compute. reflexivity.
  - reflexivity.
  - eexists. reflexivity.
  - reflexivity.
  - cbn. unfold client_capacity. lia.
  - exists b1, b2, b3, b4. repeat (split; [assumption |]). exact Hbuf.
Defined.


End ApiFacts.

(** ** Properties of the web client's graph component *)

Module WebFacts.
Import Model Beads BeadsFacts Web.

Lemma elem_of_toggleEdgeType (type other : string) (selected : gset string) :
  other ∈ toggleEdgeType type selected <->
  (other = type /\ type ∉ selected) \/ (other <> type /\ other ∈ selected).
Proof.
  unfold toggleEdgeType. destruct (decide (type ∈ selected)) as [Hin | Hout].
  - rewrite elem_of_difference, elem_of_singleton. split.
    + intros [Hother Hne]. right. split; assumption.
    + intros [[_ Hnot] | [Hne Hother]]; [contradiction | split; assumption].
  - rewrite elem_of_union, elem_of_singleton. split.
    + intros [Hother | ->]; [| left; split; [reflexivity | exact Hout]].
      right. split; [| exact Hother]. intros ->. contradiction.
    + intros [[-> _] | [_ Hother]]; [right; reflexivity | left; exact Hother].
Qed.

(** X21. Toggling an edge type changes the membership of that type and of
    no other, and toggling it twice gives the selection back. *)
Theorem toggleEdgeType_twice (type : string) (selected : gset string) :
  toggleEdgeType type (toggleEdgeType type selected) = selected
  /\ (type ∈ toggleEdgeType type selected <-> type ∉ selected)
  /\ (forall other, other <> type ->
        other ∈ toggleEdgeType type selected <-> other ∈ selected).
Proof.
  split; [| split].
  - apply set_eq. intros x. rewrite !elem_of_toggleEdgeType.
    destruct (decide (x = type)) as [-> | Hne];
      destruct (decide (type ∈ selected)) as [Hin | Hout]; tauto.
  - rewrite elem_of_toggleEdgeType. tauto.
  - intros other Hne. rewrite elem_of_toggleEdgeType. tauto.
Qed.

Lemma distinct_spec (types : list string) (seen : gset string) :
  NoDup (distinct seen types)
  /\ forall t, t ∈ distinct seen types <-> t ∈ types /\ t ∉ seen.
Proof.
  revert seen. induction types as [| x types IH]; intros seen; cbn [distinct].
  - split; [apply NoDup_nil; exact I |].
    intros t. split; [intros Hin; inversion Hin | intros [Hin _]; inversion Hin].
  - destruct (decide (x ∈ seen)) as [Hseen | Hnew].
    + destruct (IH seen) as [Hnd Hin]. split; [exact Hnd |].
      intros t. rewrite Hin, elem_of_cons. split.
      * intros [Ht Hnot]. split; [right; exact Ht | exact Hnot].
      * intros [[-> | Ht] Hnot]; [contradiction | split; assumption].
    + destruct (IH ({[x]} ∪ seen)) as [Hnd Hin]. split.
      * apply NoDup_cons. split; [| exact Hnd].
        rewrite Hin. intros [_ Hnot]. apply Hnot.
        apply elem_of_union. left. apply elem_of_singleton. reflexivity.
      * intros t. rewrite !elem_of_cons, Hin, elem_of_union, elem_of_singleton.
        split.
        -- intros [-> | [Ht Hnot]]; [split; [left; reflexivity | exact Hnew] |].
           split; [right; exact Ht |]. intros Hs. apply Hnot. right. exact Hs.
        -- intros [[-> | Ht] Hnot]; [left; reflexivity |].
           destruct (decide (t = x)) as [-> | Hne]; [left; reflexivity |].
           right. split; [exact Ht |]. intros [Heq | Hs]; contradiction.
Qed.

(** X23. The edge type filter of the toolbar offers each type that occurs
    in the graph exactly once, and no other type. *)
Theorem edgeTypesInGraph_distinct (edges : list GraphEdge) :
  NoDup (edgeTypesInGraph edges)
  /\ forall t, t ∈ edgeTypesInGraph edges <-> exists e, e ∈ edges /\ Type_ e = t.
Proof.
  unfold edgeTypesInGraph.
  destruct (distinct_spec (Type_ <$> edges) ∅) as [Hnd Hin].
  split; [exact Hnd |].
  intros t. rewrite Hin, list_elem_of_fmap. split.
  - intros [(e & -> & He) _]. exists e. split; [exact He | reflexivity].
  - intros (e & He & <-). split; [exists e; split; [reflexivity | exact He] |].
    apply not_elem_of_empty.
Qed.

Section LinkFacts.

Context {RawStatus RawPriority Priority error : Type}.
Variable mapStatus : RawStatus -> Status.
Variable mapPriority : RawPriority -> Priority.

Lemma nodeMap_from (nodes : list (GraphNode Priority))
    (m : gmap string (GraphNode Priority)) :
  (forall k n, m !! k = Some n -> ID n = k) ->
  let m' := fold_left (fun m n => <[ID n := n]> m) nodes m in
  (forall k n, m' !! k = Some n -> ID n = k)
  /\ (forall k, is_Some (m !! k) \/ k ∈ (ID <$> nodes) -> is_Some (m' !! k)).
Proof.
  revert m. induction nodes as [| x nodes IH]; intros m Hm; cbn.
  - split; [exact Hm |]. intros k [Hk | Hk]; [exact Hk | inversion Hk].
  - destruct (IH (<[ID x := x]> m)) as [Hid Hdom].
    { intros k n Hk. destruct (decide (ID x = k)) as [<- | Hne].
      - rewrite lookup_insert_eq in Hk. congruence.
      - rewrite lookup_insert_ne in Hk by exact Hne. apply Hm, Hk. }
    split; [exact Hid |].
    intros k Hk. apply Hdom.
    destruct (decide (ID x = k)) as [<- | Hne].
    + left. rewrite lookup_insert_eq. eauto.
    + rewrite lookup_insert_ne by exact Hne.
      destruct Hk as [Hk | Hk]; [left; exact Hk |].
      apply elem_of_cons in Hk as [-> | Hk]; [contradiction | right; exact Hk].
Qed.

(** X22. The client drops no edge of a graph the builder made: for every
    selection of edge types, the links are the selected edges, in order,
    each joining the node carrying the edge's source identifier to the node
    carrying its target identifier, with the edge's type. *)
Theorem links_keep_selected_edges
    (bdIssues : list (BDIssue RawStatus RawPriority))
    (blockedOut : fetched error (list BDBlocked)) (selected : gset string) :
  let g := build_graph mapStatus mapPriority bdIssues blockedOut in
  (fun l => (ID (source l), ID (target l), link_type l))
    <$> links (Nodes g) (Edges g) selected =
  (fun e => (From e, To e, Type_ e)) <$> filteredEdges (Edges g) selected.
Proof.
  intros g.
  destruct (build_graph_kept mapStatus mapPriority bdIssues blockedOut)
    as [Kn _ _ Ke].
  destruct (graph_nodes_spec mapStatus mapPriority bdIssues) as (_ & _ & _ & _ & Hm).
  cbn [graph] in Kn, Ke. fold g in Kn, Ke.
  assert (Hends : forall e, e ∈ Edges g ->
                    From e ∈ (ID <$> Nodes g) /\ To e ∈ (ID <$> Nodes g)).
  { intros e He. unfold edges_known in Ke. rewrite Forall_forall in Ke.
    destruct (Ke e He) as [Hf Ht].
    rewrite Kn, <- list_fmap_compose. split; apply Hm; assumption. }
  destruct (nodeMap_from (Nodes g) ∅) as [Hid Hdom].
  { intros k n Hk. rewrite lookup_empty in Hk. discriminate. }
  unfold links. fold (nodeMap (Nodes g)) in Hid, Hdom.
  assert (Hsub : forall e, e ∈ filteredEdges (Edges g) selected -> e ∈ Edges g).
  { intros e He. unfold filteredEdges in He.
    apply list_elem_of_In, List.filter_In in He as [He _].
    apply list_elem_of_In, He. }
  induction (filteredEdges (Edges g) selected) as [| e es IH]; [reflexivity |].
  cbn [omap list_omap].
  destruct (Hends e) as [Hf Ht]; [apply Hsub; left |].
  destruct (Hdom (From e)) as [ns Hns]; [right; exact Hf |].
  destruct (Hdom (To e)) as [nt Hnt]; [right; exact Ht |].
  rewrite Hns, Hnt. cbn [fmap list_fmap]. f_equal.
  - cbn. rewrite (Hid _ _ Hns), (Hid _ _ Hnt). reflexivity.
  - apply IH. intros e' He'. apply Hsub. right. exact He'.
Qed.

End LinkFacts.

End WebFacts.
